(** * ptt-tester: the result-tracking core of [torrent_tester.py]

    A shallow embedding of the [TorrentTester] class and of the
    [interactive_testing] session loop, followed by the properties of the
    results document, the sampler, the statistics report and the session.

    Python dictionaries are finite maps ([gmap]); Python integers are [Z];
    the float computed by [print_statistics] is kept as the exact rational
    it rounds.  Everything outside the process (standard input, the clock,
    the random generator, the file system, the PTT parser) is explicit:
    mutable parts live in [State], the parser is a section variable. *)

From Stdlib Require Import ZArith QArith String Ascii List Lia.
From stdpp Require Import gmap strings list fin_maps.

#[local] Set Warnings "-clear-no-such-hyp".

Local Open Scope string_scope.
Local Open Scope Z_scope.

(** ** The results document *)

(** The value returned by [PTT.parse_title]: a mapping from field name to
    value, kept as the list of its items. *)
Definition Parsed : Type := list (string * string).

(** An entry of [results["versions"]]. *)
Record VersionStats := {
  tested_count : Z;
  correct_count : Z;
  version_timestamp : string
}.

(** An entry of [results["titles"][title]]. *)
Record TitleVerdict := {
  is_correct : bool;
  parsed_result : Parsed;
  notes : string;
  timestamp : string
}.

Record Results := {
  versions : gmap string VersionStats;
  titles : gmap string (gmap string TitleVerdict)
}.

(** [_create_new_results] *)
Definition _create_new_results : Results :=
  {| versions := ∅; titles := ∅ |}.

(** ** The world around the tester *)

(** What [json.load] on an opened file finds.  [NotUtf8] makes the text
    decoder raise [UnicodeDecodeError], [NotJson] makes the JSON decoder
    raise [json.JSONDecodeError]. *)
Inductive content :=
| Json (d : Results)
| NotJson
| NotUtf8.

Inductive node :=
| RegularFile (c : content) (readable writable : bool)
| Directory.

(** One read of standard input: a line, or an interrupt (Ctrl-C) delivered
    while [input] waits.  The end of the list is the end of the stream. *)
Inductive stdin_item :=
| Line (l : string)
| Interrupt.

Inductive exn :=
| KeyboardInterrupt
| EOFError
| OSError
| UnicodeDecodeError
| JSONDecodeError
| IndexError
| KeyError
| ZeroDivisionError.

(** The figures [print_statistics] prints. *)
Record StatsReport := {
  total_titles : nat;
  total_tested_titles : nat;
  tested_this_version : Z;
  correct_this_version : Z;
  accuracy : option Q;
  untested_count : nat
}.

Inductive event :=
| Print (text : string)
| Display (title : string) (parsed : Parsed)
| Prompt (text : string)
| Saved (d : Results) (written : bool)
| Statistics (report : option StatsReport).

(** The tester object ([results_path], [library_version], [torrent_titles],
    [results]) together with the process environment. *)
Record State := {
  results_path : string;
  library_version : string;
  torrent_titles : list string;
  results : Results;
  stdin : list stdin_item;
  clock : nat → string;
  ticks : nat;
  rng : nat → nat;
  draws : nat;
  files : gmap string node;
  dir_writable : bool;
  out : list event
}.

Definition set_results (r : Results) (s : State) : State :=
  {| results_path := results_path s; library_version := library_version s;
     torrent_titles := torrent_titles s; results := r; stdin := stdin s;
     clock := clock s; ticks := ticks s; rng := rng s; draws := draws s;
     files := files s; dir_writable := dir_writable s; out := out s |}.

Definition set_stdin (i : list stdin_item) (s : State) : State :=
  {| results_path := results_path s; library_version := library_version s;
     torrent_titles := torrent_titles s; results := results s; stdin := i;
     clock := clock s; ticks := ticks s; rng := rng s; draws := draws s;
     files := files s; dir_writable := dir_writable s; out := out s |}.

Definition set_ticks (n : nat) (s : State) : State :=
  {| results_path := results_path s; library_version := library_version s;
     torrent_titles := torrent_titles s; results := results s; stdin := stdin s;
     clock := clock s; ticks := n; rng := rng s; draws := draws s;
     files := files s; dir_writable := dir_writable s; out := out s |}.

Definition set_draws (n : nat) (s : State) : State :=
  {| results_path := results_path s; library_version := library_version s;
     torrent_titles := torrent_titles s; results := results s; stdin := stdin s;
     clock := clock s; ticks := ticks s; rng := rng s; draws := n;
     files := files s; dir_writable := dir_writable s; out := out s |}.

Definition set_files (f : gmap string node) (s : State) : State :=
  {| results_path := results_path s; library_version := library_version s;
     torrent_titles := torrent_titles s; results := results s; stdin := stdin s;
     clock := clock s; ticks := ticks s; rng := rng s; draws := draws s;
     files := f; dir_writable := dir_writable s; out := out s |}.

Definition emit (e : event) (s : State) : State :=
  {| results_path := results_path s; library_version := library_version s;
     torrent_titles := torrent_titles s; results := results s; stdin := stdin s;
     clock := clock s; ticks := ticks s; rng := rng s; draws := draws s;
     files := files s; dir_writable := dir_writable s; out := out s ++ [e] |}.

(** ** Computations that may raise *)

(** [OutOfFuel] is the answer of a bounded loop whose bound was too small;
    no handler and no [finally] block runs on it. *)
Inductive outcome (A : Type) :=
| Returned (a : A)
| Raised (e : exn)
| OutOfFuel.
Arguments Returned {A} a.
Arguments Raised {A} e.
Arguments OutOfFuel {A}.

Definition M (A : Type) : Type := State → outcome A * State.

#[global] Instance M_ret : MRet M := λ A (a : A) s, (Returned a, s).
#[global] Instance M_bind : MBind M := λ A B (f : A → M B) (m : M A) s,
  match m s with
  | (Returned a, s') => f a s'
  | (Raised e, s') => (Raised e, s')
  | (OutOfFuel, s') => (OutOfFuel, s')
  end.

Definition raise {A} (e : exn) : M A := λ s, (Raised e, s).
Definition get {A} (f : State → A) : M A := λ s, (Returned (f s), s).
Definition modify (f : State → State) : M unit := λ s, (Returned tt, f s).
Definition print (text : string) : M unit := modify (emit (Print text)).

(** [try: m except e: h] *)
Definition try_except {A} (m : M A) (catches : exn → bool) (h : M A) : M A :=
  λ s, match m s with
       | (Raised e, s') => if catches e then h s' else (Raised e, s')
       | r => r
       end.

(** [try: m finally: f] *)
Definition try_finally {A} (m : M A) (f : M unit) : M A :=
  λ s, match m s with
       | (OutOfFuel, s') => (OutOfFuel, s')
       | (r, s') => match f s' with
                    | (Returned _, s'') => (r, s'')
                    | (Raised e, s'') => (Raised e, s'')
                    | (OutOfFuel, s'') => (OutOfFuel, s'')
                    end
       end.

(** [datetime.now()], rendered; each call reads the next clock value. *)
Definition now : M string :=
  λ s, (Returned (clock s (ticks s)), set_ticks (S (ticks s)) s).

(** The generator behind [random.choice] and [random.shuffle]: a number
    below [n]. *)
Definition randbelow (n : nat) : M nat :=
  λ s, (Returned (rng s (draws s) mod n)%nat, set_draws (S (draws s)) s).

(** [random.choice]: [IndexError] on an empty sequence. *)
Definition choice (l : list string) : M string :=
  match l with
  | [] => raise IndexError
  | _ => i ← randbelow (length l);
         match l !! i with
         | Some x => mret x
         | None => raise IndexError
         end
  end.

(** [x[i], x[j] = x[j], x[i]] *)
Definition swap (x : list string) (i j : nat) : list string :=
  match x !! i, x !! j with
  | Some a, Some b => <[j:=a]> (<[i:=b]> x)
  | _, _ => x
  end.

(** [random.shuffle]: for [i] from [len(x)-1] down to [1], swap [x[i]] with
    [x[randbelow(i+1)]]. *)
Fixpoint shuffle_from (i : nat) (x : list string) : M (list string) :=
  match i with
  | O => mret x
  | S i' => j ← randbelow (S i); shuffle_from i' (swap x i j)
  end.

Definition shuffle (x : list string) : M (list string) :=
  shuffle_from (length x - 1) x.

(** [input(prompt)]: [EOFError] at the end of the stream. *)
Definition input (prompt : string) : M string :=
  λ s, let s1 := emit (Prompt prompt) s in
       match stdin s with
       | [] => (Raised EOFError, s1)
       | Interrupt :: rest => (Raised KeyboardInterrupt, set_stdin rest s1)
       | Line l :: rest => (Returned l, set_stdin rest s1)
       end.

(** [str.lower] on the ASCII letters. *)
Definition lower_ascii (c : ascii) : ascii :=
  let n := nat_of_ascii c in
  if ((65 <=? n) && (n <=? 90))%nat then ascii_of_nat (n + 32) else c.

Fixpoint lower (s : string) : string :=
  match s with
  | EmptyString => EmptyString
  | String c rest => String (lower_ascii c) (lower rest)
  end.

(** ** The file system calls *)

(** [os.path.exists] *)
Definition os_path_exists (path : string) : M bool :=
  get (λ s, bool_decide (is_Some (files s !! path))).

(** [os.rename]: needs the source and a writable directory. *)
Definition os_rename (src dst : string) : M unit :=
  λ s, match files s !! src with
       | Some n =>
           if dir_writable s
           then (Returned tt, set_files (<[dst:=n]> (delete src (files s))) s)
           else (Raised OSError, s)
       | None => (Raised OSError, s)
       end.

(** [with open(path, 'r', encoding='utf-8') as f: json.load(f)] *)
Definition json_load (path : string) : M Results :=
  λ s, match files s !! path with
       | Some (RegularFile (Json d) true _) => (Returned d, s)
       | Some (RegularFile NotJson true _) => (Raised JSONDecodeError, s)
       | Some (RegularFile NotUtf8 true _) => (Raised UnicodeDecodeError, s)
       | _ => (Raised OSError, s)
       end.

(** [with open(path, 'w', encoding='utf-8') as f: json.dump(d, f, indent=2)] *)
Definition json_dump (d : Results) (path : string) : M unit :=
  λ s, match files s !! path with
       | Some (RegularFile _ r true) =>
           (Returned tt, set_files (<[path:=RegularFile (Json d) r true]> (files s)) s)
       | Some _ => (Raised OSError, s)
       | None =>
           if dir_writable s
           then (Returned tt, set_files (<[path:=RegularFile (Json d) true true]> (files s)) s)
           else (Raised OSError, s)
       end.

(** ** [TorrentTester] *)

Definition is_JSONDecodeError (e : exn) : bool :=
  match e with JSONDecodeError => true | _ => false end.

Definition is_KeyboardInterrupt (e : exn) : bool :=
  match e with KeyboardInterrupt => true | _ => false end.

(** [except Exception]: everything but [KeyboardInterrupt]. *)
Definition is_Exception (e : exn) : bool :=
  match e with KeyboardInterrupt => false | _ => true end.

Definition backup_path_of (path stamp : string) : string :=
  path ++ ".bak." ++ stamp.

(** [_backup_results] *)
Definition _backup_results : M unit :=
  path ← get results_path;
  present ← os_path_exists path;
  if (present : bool) then
    stamp ← now;
    let backup_path := backup_path_of path stamp in
    try_except
      (os_rename path backup_path;;
       print ("Backup created at " ++ backup_path))
      is_Exception
      (print "Failed to create backup")
  else mret tt.

(** [_load_results] *)
Definition _load_results : M Results :=
  path ← get results_path;
  present ← os_path_exists path;
  if (present : bool) then
    try_except
      (json_load path)
      is_JSONDecodeError
      (print "Results file is corrupted. Creating backup and starting fresh.";;
       _backup_results;;
       mret _create_new_results)
  else mret _create_new_results.

(** [save_results]; the [Saved] event stands for the attempt, with
    [written = false] when the error message is printed instead. *)
Definition save_results : M unit :=
  path ← get results_path;
  d ← get results;
  try_except
    (json_dump d path;; modify (emit (Saved d true)))
    is_Exception
    (modify (emit (Saved d false))).

(** [title not in results["titles"] or version not in results["titles"][title]] *)
Definition is_untested (r : Results) (version title : string) : bool :=
  match titles r !! title with
  | None => true
  | Some by_version =>
      match by_version !! version with
      | None => true
      | Some _ => false
      end
  end.

(** [get_random_untested_title] *)
Definition get_random_untested_title : M (option string) :=
  r ← get results;
  version ← get library_version;
  all ← get torrent_titles;
  let untested_titles := List.filter (is_untested r version) all in
  match untested_titles with
  | [] => mret None
  | _ => title ← choice untested_titles; mret (Some title)
  end.

Definition set_versions (vs : gmap string VersionStats) (r : Results) : Results :=
  {| versions := vs; titles := titles r |}.

Definition set_titles (ts : gmap string (gmap string TitleVerdict)) (r : Results) : Results :=
  {| versions := versions r; titles := ts |}.

(** [d[k]] *)
Definition getitem {V} (d : gmap string V) (k : string) : M V :=
  match d !! k with
  | Some x => mret x
  | None => raise KeyError
  end.

(** [results["versions"][version]["tested_count"] += 1] *)
Definition incr_tested (version : string) : M unit :=
  r ← get results;
  st ← getitem (versions r) version;
  modify (set_results (set_versions
    (<[version := {| tested_count := tested_count st + 1;
                     correct_count := correct_count st;
                     version_timestamp := version_timestamp st |}]> (versions r)) r)).

(** [results["versions"][version]["correct_count"] += 1] *)
Definition incr_correct (version : string) : M unit :=
  r ← get results;
  st ← getitem (versions r) version;
  modify (set_results (set_versions
    (<[version := {| tested_count := tested_count st;
                     correct_count := correct_count st + 1;
                     version_timestamp := version_timestamp st |}]> (versions r)) r)).

(** [record_result] *)
Definition record_result (title : string) (parsed : Parsed)
    (correct : bool) (note : string) : M unit :=
  version ← get library_version;
  r ← get results;
  match versions r !! version with
  | None =>
      stamp ← now;
      modify (set_results (set_versions
        (<[version := {| tested_count := 0; correct_count := 0;
                         version_timestamp := stamp |}]> (versions r)) r))
  | Some _ => mret tt
  end;;
  r ← get results;
  match titles r !! title with
  | None => modify (set_results (set_titles (<[title := ∅]> (titles r)) r))
  | Some _ => mret tt
  end;;
  stamp ← now;
  r ← get results;
  by_version ← getitem (titles r) title;
  modify (set_results (set_titles
    (<[title := <[version := {| is_correct := correct; parsed_result := parsed;
                                notes := note; timestamp := stamp |}]> by_version]>
       (titles r)) r));;
  incr_tested version;;
  (if correct then incr_correct version else mret tt);;
  save_results.

(** [get_previously_tested_titles] *)
Definition get_previously_tested_titles : M (list string) :=
  r ← get results;
  mret (map_to_list (titles r)).*1.

(** [a / b] on integers: the exact quotient, [ZeroDivisionError] for [b = 0]. *)
Definition truediv (a b : Z) : M Q :=
  if decide (b = 0) then raise ZeroDivisionError
  else mret (Qmake (a * Z.sgn b) (Z.to_pos (Z.abs b))).

(** [print_statistics]; the printed lines are one [Statistics] event, and
    a call that prints nothing (no dataset) is [Statistics None]. *)
Definition print_statistics : M unit :=
  all ← get torrent_titles;
  match all with
  | [] => modify (emit (Statistics None))
  | _ =>
      r ← get results;
      version ← get library_version;
      let total := length all in
      let '(tested, correct) :=
        match versions r !! version with
        | Some version_stats => (tested_count version_stats, correct_count version_stats)
        | None => (0, 0)
        end in
      let total_tested := size (titles r) in
      acc ← (if 0 <? tested
             then q ← truediv correct tested; mret (Some (q * 100)%Q)
             else mret None);
      let untested := length (List.filter (is_untested r version) all) in
      modify (emit (Statistics (Some
        {| total_titles := total; total_tested_titles := total_tested;
           tested_this_version := tested; correct_this_version := correct;
           accuracy := acc; untested_count := untested |})))
  end.

(** ** The interactive session *)

Definition verdict_prompt : string :=
  "Is this parsing correct? (Y/n/s/q) [Y=yes, n=no, s=skip, q=quit]: ".

(** [response in ['y', 'n', 's', 'q', '']] *)
Definition valid_response (response : string) : bool :=
  (response =? "y")%string || (response =? "n")%string ||
  (response =? "s")%string || (response =? "q")%string ||
  (response =? EmptyString)%string.

(** The inner [while True] loop that asks for the verdict: it reads lines
    until one is accepted, so it is defined along the input stream. *)
Fixpoint ask_verdict_from (pending : list stdin_item) : M string :=
  λ s, let s1 := emit (Prompt verdict_prompt) s in
       match pending with
       | [] => (Raised EOFError, s1)
       | Interrupt :: rest => (Raised KeyboardInterrupt, set_stdin rest s1)
       | Line l :: rest =>
           let response := lower l in
           let s2 := set_stdin rest s1 in
           if valid_response response then (Returned response, s2)
           else ask_verdict_from rest
                  (emit (Print "Invalid input. Please enter Y, n, s or q (or press Enter for Yes).") s2)
       end.

Definition ask_verdict : M string :=
  λ s, ask_verdict_from (stdin s) s.

(** How one pass through the body of the outer [while True] ends. *)
Inductive control :=
| Break
| Continue (count : nat).

Section Session.

(** [PTT.parse_title] *)
Variable parse_title : string → Parsed.

(** [parse_torrent_title] *)
Definition parse_torrent_title (title : string) : Parsed := parse_title title.

(** The head of the loop body: the title of this round, or [None] when the
    loop breaks because nothing is left. *)
Definition select (retest_mode : bool) (titles_to_test : list string)
    (count : nat) : M (option string) :=
  if retest_mode && (length titles_to_test <=? count)%nat then
    print "All previously tested titles have been retested.";;
    mret None
  else if retest_mode then
    match titles_to_test !! count with
    | Some title => mret (Some title)
    | None => raise IndexError
    end
  else
    title ← get_random_untested_title;
    match title with
    | Some (String c rest) => mret (Some (String c rest))
    | _ =>
        print "All titles in the dataset have been tested with this library version.";;
        mret None
    end.

Definition continue_prompt : string := "Continue testing? (Y/n): ".

(** The end of a recorded pass, with [count] already incremented: the
    statistics every fifth pass, the question every tenth. *)
Definition periodic (count : nat) : M control :=
  (if (count mod 5 =? 0)%nat then print_statistics else mret tt);;
  if (count mod 10 =? 0)%nat then
    continue_response ← input continue_prompt;
    let answer := lower continue_response in
    if (answer =? EmptyString)%string || (answer =? "y")%string
    then mret (Continue count)
    else print "Ending test session.";; mret Break
  else mret (Continue count).

(** The rest of the loop body, from parsing the title to the prompts. *)
Definition judge (title : string) (count : nat) : M control :=
  let parsed := parse_torrent_title title in
  modify (emit (Display title parsed));;
  response ← ask_verdict;
  if (response =? "q")%string then
    print "Quitting test session.";;
    mret Break
  else if (response =? "s")%string then
    print "Skipping this title.";;
    mret (Continue (count + 1))
  else
    let correct := (response =? "y")%string || (response =? EmptyString)%string in
    note ← (if correct then mret EmptyString else input "Notes about this result: ");
    record_result title parsed correct note;;
    periodic (count + 1).

(** One pass through the body of the outer loop. *)
Definition round (retest_mode : bool) (titles_to_test : list string)
    (count : nat) : M control :=
  selected ← select retest_mode titles_to_test count;
  match selected with
  | None => mret Break
  | Some title => judge title count
  end.

(** The outer [while True] loop, bounded by [fuel] passes. *)
Fixpoint loop (fuel : nat) (retest_mode : bool) (titles_to_test : list string)
    (count : nat) : M unit :=
  match fuel with
  | O => λ s, (OutOfFuel, s)
  | S fuel' =>
      c ← round retest_mode titles_to_test count;
      match c with
      | Break => mret tt
      | Continue count' => loop fuel' retest_mode titles_to_test count'
      end
  end.

(** The [try] block of [interactive_testing]. *)
Definition session_body (fuel : nat) (retest_mode : bool) : M unit :=
  if retest_mode then
    titles_to_test ← get_previously_tested_titles;
    match titles_to_test with
    | [] => print "No previously tested titles found."
    | _ =>
        titles_to_test ← shuffle titles_to_test;
        loop fuel true titles_to_test 0
    end
  else loop fuel false [] 0.

Definition final_step : M unit :=
  save_results;; print_statistics.

Definition interactive_testing_fuel (fuel : nat) (retest_mode : bool) : M unit :=
  try_finally
    (try_except (session_body fuel retest_mode)
       is_KeyboardInterrupt
       (print "Test session interrupted."))
    final_step.

(** [interactive_testing]: every pass that goes on has read a line, so one
    pass more than the lines left on standard input is enough. *)
Definition interactive_testing (retest_mode : bool) : M unit :=
  λ s, interactive_testing_fuel (S (length (stdin s))) retest_mode s.

End Session.

(** ** Starting the tester *)

(** [str.isspace] on a character; an [ascii] stands for a character whose
    code point is below 256. *)
Definition isspace (c : ascii) : bool :=
  let n := nat_of_ascii c in
  ((9 <=? n) && (n <=? 13) || (28 <=? n) && (n <=? 32)
   || (n =? 133) || (n =? 160))%nat.

(** [str.lstrip], [str.rstrip] and [str.strip] without arguments. *)
Fixpoint lstrip (s : string) : string :=
  match s with
  | EmptyString => EmptyString
  | String c rest => if isspace c then lstrip rest else s
  end.

Fixpoint rstrip (s : string) : string :=
  match s with
  | EmptyString => EmptyString
  | String c rest =>
      match rstrip rest with
      | EmptyString => if isspace c then EmptyString else String c EmptyString
      | kept => String c kept
      end
  end.

Definition strip (s : string) : string := rstrip (lstrip s).

(** [bool(s)] for a string. *)
Definition nonempty (s : string) : bool :=
  match s with
  | EmptyString => false
  | String _ _ => true
  end.

Definition set_torrent_titles (ts : list string) (s : State) : State :=
  {| results_path := results_path s; library_version := library_version s;
     torrent_titles := ts; results := results s; stdin := stdin s;
     clock := clock s; ticks := ticks s; rng := rng s; draws := draws s;
     files := files s; dir_writable := dir_writable s; out := out s |}.

Definition set_configuration (path version : string) (s : State) : State :=
  {| results_path := path; library_version := version;
     torrent_titles := torrent_titles s; results := results s; stdin := stdin s;
     clock := clock s; ticks := ticks s; rng := rng s; draws := draws s;
     files := files s; dir_writable := dir_writable s; out := out s |}.

(** How the process ends: [main] returns, [sys.exit] is called, an exception
    is not caught, or a bounded loop ran out of passes. *)
Inductive ending :=
| Finished
| Exited (status : Z)
| Crashed (e : exn)
| Unbounded.

Definition run (m : M unit) (s : State) : ending * State :=
  match m s with
  | (Returned _, s') => (Finished, s')
  | (Raised e, s') => (Crashed e, s')
  | (OutOfFuel, s') => (Unbounded, s')
  end.

(** The parsed command line ([args] in [main]). *)
Record Args := {
  arg_dataset : option string;
  arg_title : option string;
  arg_results : string;
  arg_version : string;
  arg_retest : bool;
  arg_stats : bool;
  arg_save : bool
}.

Section Startup.

(** [PTT.parse_title] *)
Variable parse_title : string → Parsed.

(** The text files the dataset can be read from: the lines that iterating
    over the opened file gives, or [None] when opening or decoding fails. *)
Variable read_text : string → option (list string).

(** [_load_dataset]: the titles, or the status of [sys.exit]. *)
Definition _load_dataset (dataset_path : string) (s : State)
    : (list string + Z) * State :=
  match read_text dataset_path with
  | Some lines =>
      (inl (strip <$> List.filter (λ line, nonempty (strip line)) lines), s)
  | None => (inr 1, emit (Print "Error loading dataset") s)
  end.

(** [TorrentTester.__init__] on the process state [w], whose tester fields
    are not read before they are assigned: [None] when the tester is built,
    the way the process ends otherwise. *)
Definition __init__ (dataset_path : option string) (path version : string)
    (w : State) : option ending * State :=
  let s0 := set_configuration path version w in
  match _load_results s0 with
  | (Returned r, s1) =>
      let s2 := set_results r s1 in
      if nonempty (default EmptyString dataset_path) then
        match _load_dataset (default EmptyString dataset_path) s2 with
        | (inl loaded, s3) => (None, set_torrent_titles loaded s3)
        | (inr status, s3) => (Some (Exited status), s3)
        end
      else (None, set_torrent_titles [] s2)
  | (Raised e, s1) => (Some (Crashed e), s1)
  | (OutOfFuel, s1) => (Some Unbounded, s1)
  end.

(** [parse_single_title] *)
Definition parse_single_title (title : string) (save_result : bool) : M unit :=
  let parsed := parse_torrent_title parse_title title in
  modify (emit (Display title parsed));;
  if save_result then
    response ← ask_verdict;
    if (response =? "q")%string then print "Quitting test session."
    else if (response =? "s")%string then print "Skipping this title."
    else
      let correct := (response =? "y")%string || (response =? EmptyString)%string in
      note ← (if correct then mret EmptyString else input "Notes about this result: ");
      record_result title parsed correct note
  else mret tt.

Definition render_dataset (dataset : option string) : string :=
  match dataset with
  | Some path => path
  | None => "None"
  end.

(** The modes of [main], once the arguments are known to name a dataset or
    a title. *)
Definition dispatch (args : Args) (w : State) : ending * State :=
  match __init__ (arg_dataset args) (arg_results args) (arg_version args) w with
  | (Some e, s) => (e, s)
  | (None, s) =>
      if nonempty (default EmptyString (arg_title args)) then
        run (parse_single_title (default EmptyString (arg_title args))
               (arg_save args)) s
      else if arg_stats args then run print_statistics s
      else
        run (print ("Testing parser version: " ++ arg_version args);;
             print ("Dataset: " ++ render_dataset (arg_dataset args));;
             print ("Results will be saved to: " ++ arg_results args);;
             (if arg_retest args
              then print "Mode: Retesting previously tested titles"
              else print "Mode: Testing new random titles");;
             input "Press Enter to begin testing...";;
             interactive_testing parse_title (arg_retest args)) s
  end.

(** [main], from the parsed arguments on. *)
Definition main (args : Args) (w : State) : ending * State :=
  match arg_dataset args, arg_title args with
  | None, None =>
      (Exited 2,
       emit (Print "Either a dataset file or a single title (--title) is required") w)
  | _, _ => dispatch args w
  end.

End Startup.

(** ** Vocabulary of the statements *)

(** A counter of a version's statistics, zero for a version not seen. *)
Definition count_of (field : VersionStats → Z) (r : Results) (version : string) : Z :=
  match versions r !! version with
  | Some st => field st
  | None => 0
  end.

(** The stored verdict of a title under a version, if there is one. *)
Definition verdict_of (r : Results) (version title : string) : option TitleVerdict :=
  titles r !! title ≫= (.!! version).

(** The bounds of the data model on a version's statistics. *)
Definition counts_ok (d : Results) : Prop :=
  ∀ version st, versions d !! version = Some st →
    0 ≤ correct_count st ≤ tested_count st.

(** The documents the tester can build from nothing. *)
Inductive reachable : Results → Prop :=
| reachable_new : reachable _create_new_results
| reachable_record s title parsed correct note :
    reachable (results s) →
    reachable (results (record_result title parsed correct note s).2).

(** A computation is [tame] when it ends (no bounded loop inside runs out of
    passes), gives back no more pending input than it found, and only adds
    to the log. *)
Definition tame {A} (m : M A) : Prop :=
  ∀ s, (m s).1 ≠ OutOfFuel ∧
       (length (stdin (m s).2) ≤ length (stdin s))%nat ∧
       out s `prefix_of` out (m s).2.

(** A computation is [consuming] when it can only return after reading from
    standard input. *)
Definition consuming {A} (m : M A) : Prop :=
  ∀ s a s', m s = (Returned a, s') → (length (stdin s') < length (stdin s))%nat.

(** No counter of [d] is lower or gone in [d']. *)
Definition counters_le (d d' : Results) : Prop :=
  ∀ version st, versions d !! version = Some st →
    ∃ st', versions d' !! version = Some st' ∧
           tested_count st ≤ tested_count st' ∧
           correct_count st ≤ correct_count st'.

(** A computation is [steady] when it lowers no counter of the document and
    leaves a document built by [record_result] calls one. *)
Definition steady {A} (m : M A) : Prop :=
  ∀ s, counters_le (results s) (results (m s).2) ∧
       (reachable (results s) → reachable (results (m s).2)).

Definition is_saved (e : event) : bool :=
  match e with
  | Saved _ _ => true
  | _ => false
  end.

(** A computation is [quiet] when it leaves the tester (document, dataset,
    version, results path) and the files alone and saves nothing: all it
    does is read input, draw numbers, read the clock and print. *)
Definition quiet {A} (m : M A) : Prop :=
  ∀ s, results (m s).2 = results s ∧
       library_version (m s).2 = library_version s ∧
       torrent_titles (m s).2 = torrent_titles s ∧
       results_path (m s).2 = results_path s ∧
       files (m s).2 = files s ∧
       dir_writable (m s).2 = dir_writable s ∧
       ∃ evs, out (m s).2 = (out s ++ evs)%list ∧
              Forall (λ e, is_saved e = false) evs.

(** What a pass or a single-title run did to the document: nothing, or one
    verdict for [title] with the parse [parsed], saved at once. *)
Definition recorded_at_most_once (title : string) (parsed : Parsed)
    (s s' : State) : Prop :=
  ∃ evs, out s' = (out s ++ evs)%list ∧
    ((results s' = results s ∧ files s' = files s ∧
      List.filter is_saved evs = [])
     ∨ (∃ verdict written,
          verdict_of (results s') (library_version s) title = Some verdict ∧
          parsed_result verdict = parsed ∧
          (is_correct verdict = true → notes verdict = EmptyString) ∧
          count_of tested_count (results s') (library_version s)
            = count_of tested_count (results s) (library_version s) + 1 ∧
          List.filter is_saved evs = [Saved (results s') written])).

Definition records_at_most_once (title : string) (parsed : Parsed) {A}
    (m : M A) : Prop :=
  ∀ s, recorded_at_most_once title parsed s (m s).2.

(** The number of titles with a verdict under a version, and the number of
    those whose verdict is "correct". *)
Definition judged (d : Results) (version : string) : nat :=
  size (filter (λ e : string * gmap string TitleVerdict,
                  is_Some (e.2 !! version)) (titles d)).

Definition judged_correct (d : Results) (version : string) : nat :=
  size (filter (λ e : string * gmap string TitleVerdict,
                  is_correct <$> e.2 !! version = Some true) (titles d)).

(** The counters say what the document holds, for every version. *)
Definition exact_counts (d : Results) : Prop :=
  ∀ version,
    count_of tested_count d version = Z.of_nat (judged d version) ∧
    count_of correct_count d version = Z.of_nat (judged_correct d version).

Definition exact (s : State) : Prop := exact_counts (results s).

Definition exact_untested (title : string) (s : State) : Prop :=
  exact_counts (results s) ∧
  verdict_of (results s) (library_version s) title = None.

(** From a state where [P] holds, [m] ends in a state where [Q] holds. *)
Definition triple (P Q : State → Prop) {A} (m : M A) : Prop :=
  ∀ s, P s → Q (m s).2.

(** A computation is [mild] when the only exceptions it can raise are an
    interrupt and, with standard input used up, [EOFError]. *)
Definition mild {A} (m : M A) : Prop :=
  ∀ s, ∀ e, (m s).1 = Raised e →
    (e = EOFError ∧ stdin (m s).2 = []) ∨ e = KeyboardInterrupt.

(** A dataset file of three lines, the second blank, and the arguments of
    a run on it and of a run on one title. *)
Definition newline : string := String (ascii_of_nat 10) EmptyString.

Definition example_texts (path : string) : option (list string) :=
  if (path =? "titles.txt")%string
  then Some ["Show.S01E02.1080p" ++ newline; "   " ++ newline;
             "  Movie.2020.720p " ++ newline]
  else None.

Definition example_dataset_args : Args :=
  {| arg_dataset := Some "titles.txt"; arg_title := None;
     arg_results := "parser_test_results.json"; arg_version := "dev";
     arg_retest := false; arg_stats := false; arg_save := false |}.

Definition example_title_args : Args :=
  {| arg_dataset := None; arg_title := Some "Show.S01E02.1080p";
     arg_results := "parser_test_results.json"; arg_version := "dev";
     arg_retest := false; arg_stats := false; arg_save := false |}.

Definition invalid_message : string :=
  "Invalid input. Please enter Y, n, s or q (or press Enter for Yes).".

(** A tester on the default results path and version, with an empty
    document, an empty directory, a still clock and the generator that
    counts its draws. *)
Definition example_state (dataset : list string) (pending : list stdin_item) : State :=
  {| results_path := "parser_test_results.json"; library_version := "dev";
     torrent_titles := dataset; results := _create_new_results;
     stdin := pending; clock := λ _, "2024-05-01T10:00:00"; ticks := 0;
     rng := λ n, n; draws := 0; files := ∅; dir_writable := true; out := [] |}.

(** A parser that finds the title and nothing else. *)
Definition example_parser (title : string) : Parsed := [("title", title)].

(** The state of [example_state] after one verdict for a title. *)
Definition example_tested (dataset : list string) (title : string) : State :=
  (record_result title (example_parser title) true EmptyString
     (example_state dataset [])).2.

(** A results file that is not JSON, in a directory that may be read-only. *)
Definition example_corrupt (writable : bool) : State :=
  {| results_path := "parser_test_results.json"; library_version := "dev";
     torrent_titles := []; results := _create_new_results;
     stdin := []; clock := λ _, "20240501100000"; ticks := 0;
     rng := λ n, n; draws := 0;
     files := {[ "parser_test_results.json" := RegularFile NotJson true true ]};
     dir_writable := writable; out := [] |}.

(** A results file that is not UTF-8 text. *)
Definition example_undecodable : State :=
  {| results_path := "parser_test_results.json"; library_version := "dev";
     torrent_titles := []; results := _create_new_results;
     stdin := []; clock := λ _, "20240501100000"; ticks := 0;
     rng := λ n, n; draws := 0;
     files := {[ "parser_test_results.json" := RegularFile NotUtf8 true true ]};
     dir_writable := true; out := [] |}.

(** * Properties *)

(** ** Running the monad *)

#[local] Arguments Nat.modulo : simpl never.

Ltac unfold_monad :=
  unfold mbind, M_bind, mret, M_ret, get, modify, raise, print, getitem,
    try_except, try_finally, now in *.

Lemma bind_returned {A B} (m : M A) (f : A → M B) s a s' :
  m s = (Returned a, s') → (m ≫= f) s = f a s'.
Proof. intros H. unfold mbind, M_bind. by rewrite H. Qed.

Lemma bind_raised {A B} (m : M A) (f : A → M B) s e s' :
  m s = (Raised e, s') → (m ≫= f) s = (Raised e, s').
Proof. intros H. unfold mbind, M_bind. by rewrite H. Qed.

(** ** [save_results] *)

(** Saving never raises and touches nothing but the file and the log. *)
Lemma save_results_run s :
  ∃ f written,
    save_results s = (Returned tt, emit (Saved (results s) written) (set_files f s)).
Proof.
  unfold save_results, json_dump. unfold_monad. simpl.
  destruct (files s !! results_path s) as [[c r [|]|]|] eqn:E; simpl.
  - eexists _, true. reflexivity.
  - exists (files s), false. by destruct s.
  - exists (files s), false. by destruct s.
  - destruct (dir_writable s); simpl.
    + eexists _, true. reflexivity.
    + exists (files s), false. by destruct s.
Qed.

(** ** [record_result] *)

(** The run of [record_result] in closed form. *)
Lemma record_result_run title parsed correct note s :
  let version := library_version s in
  let r := results s in
  let fresh := bool_decide (versions r !! version = None) in
  let first_seen :=
    match versions r !! version with
    | Some st => version_timestamp st
    | None => clock s (ticks s)
    end in
  let stamp := clock s (if fresh then S (ticks s) else ticks s) in
  ∃ s',
    record_result title parsed correct note s = (Returned tt, s') ∧
    versions (results s') =
      <[version := {| tested_count := count_of tested_count r version + 1;
                      correct_count := count_of correct_count r version
                                       + (if correct then 1 else 0);
                      version_timestamp := first_seen |}]> (versions r) ∧
    titles (results s') =
      <[title := <[version := {| is_correct := correct; parsed_result := parsed;
                                 notes := note; timestamp := stamp |}]>
                   (default ∅ (titles r !! title))]> (titles r) ∧
    library_version s' = library_version s ∧
    torrent_titles s' = torrent_titles s ∧
    results_path s' = results_path s ∧
    stdin s' = stdin s ∧
    (∃ written, out s' = (out s ++ [Saved (results s') written])%list).
Proof.
  intros version r fresh first_seen stamp.
  unfold record_result, incr_tested, incr_correct.
  subst version r fresh first_seen stamp. unfold count_of.
  unfold_monad.
  destruct (versions (results s) !! library_version s) as [st|] eqn:Ev;
    destruct (titles (results s) !! title) as [bv|] eqn:Et;
    destruct correct; simpl;
    rewrite ?Ev, ?Et; simpl;
    rewrite ?lookup_insert_eq; simpl;
    rewrite ?Ev, ?Et; simpl;
    rewrite ?lookup_insert_eq; simpl;
    match goal with
    | |- context [save_results ?m] =>
        destruct (save_results_run m) as (f & w & ->)
    end;
    eexists; (split; [reflexivity|]); simpl;
    rewrite ?insert_insert_eq;
    repeat split; try (f_equal; f_equal; lia); eauto.
Qed.

Lemma previously_tested_elem s title :
  ∃ l, get_previously_tested_titles s = (Returned l, s) ∧
       (title ∈ l ↔ is_Some (titles (results s) !! title)).
Proof.
  eexists. split; [reflexivity|].
  rewrite list_elem_of_fmap. split.
  - intros [[k v] [-> H]]. apply elem_of_map_to_list in H. simpl. eauto.
  - intros [v H]. exists (title, v). split; [done|]. by apply elem_of_map_to_list.
Qed.

(** C1. After [record_result] for a title under the tester's version, the
    title is among the previously tested titles, the version's
    [tested_count] is exactly one more than before (zero for a version not
    seen before), and its [correct_count] is one more exactly when the
    verdict is "correct" and unchanged otherwise.  This holds on every call,
    whether or not a verdict for the pair was already stored. *)
Theorem record_result_counts title parsed correct note s :
  ∃ s' st' tested,
    record_result title parsed correct note s = (Returned tt, s') ∧
    get_previously_tested_titles s' = (Returned tested, s') ∧
    title ∈ tested ∧
    versions (results s') !! library_version s = Some st' ∧
    tested_count st' = count_of tested_count (results s) (library_version s) + 1 ∧
    correct_count st' = count_of correct_count (results s) (library_version s)
                        + (if correct then 1 else 0) ∧
    (correct_count st' = count_of correct_count (results s) (library_version s) + 1
     ↔ correct = true).
Proof.
  destruct (record_result_run title parsed correct note s)
    as (s' & Hrun & Hv & Ht & _).
  destruct (previously_tested_elem s' title) as (l & Hl & Hin).
  eexists s', _, l. split; [exact Hrun|]. split; [exact Hl|].
  split.
  { apply Hin. rewrite Ht, lookup_insert_eq. eauto. }
  split.
  { rewrite Hv. apply lookup_insert_eq. }
  simpl. split; [reflexivity|]. split; [reflexivity|].
  destruct correct; split; intros; try done; lia.
Qed.

(** C10. [record_result] for a title under the tester's version leaves every
    other title's entry, every other version's verdict for the title and
    every other version's statistics as they were, and a version already
    present keeps its time stamp. *)
Theorem record_result_frame title parsed correct note s :
  ∃ s',
    record_result title parsed correct note s = (Returned tt, s') ∧
    (∀ title', title' ≠ title →
       titles (results s') !! title' = titles (results s) !! title') ∧
    (∀ version', version' ≠ library_version s →
       (titles (results s') !! title ≫= (.!! version'))
       = (titles (results s) !! title ≫= (.!! version')) ∧
       versions (results s') !! version' = versions (results s) !! version') ∧
    (∀ st, versions (results s) !! library_version s = Some st →
       ∃ st', versions (results s') !! library_version s = Some st' ∧
              version_timestamp st' = version_timestamp st).
Proof.
  destruct (record_result_run title parsed correct note s)
    as (s' & Hrun & Hv & Ht & _).
  exists s'. split; [exact Hrun|]. split; [|split].
  - intros title' Hne. rewrite Ht. by apply lookup_insert_ne.
  - intros version' Hne. split.
    + rewrite Ht, lookup_insert_eq. simpl.
      rewrite lookup_insert_ne by done.
      destruct (titles (results s) !! title); simpl; [done|].
      apply lookup_empty.
    + rewrite Hv. by apply lookup_insert_ne.
  - intros st Hst. rewrite Hv, lookup_insert_eq. eexists. split; [reflexivity|].
    simpl. by rewrite Hst.
Qed.

(** C2, as the code has it.  Recording a verdict for a pair that already has
    one replaces the stored verdict in place: the title's entry keeps the
    same versions and the document the same titles.  The version's
    [tested_count] is incremented again, and so is [correct_count] when the
    new verdict is "correct". *)
Theorem rerecord_overwrites_and_counts title parsed correct note s by_version old :
  titles (results s) !! title = Some by_version →
  by_version !! library_version s = Some old →
  ∃ s' by_version' st',
    record_result title parsed correct note s = (Returned tt, s') ∧
    titles (results s') !! title = Some by_version' ∧
    (∃ stamp, by_version' !! library_version s =
       Some {| is_correct := correct; parsed_result := parsed;
               notes := note; timestamp := stamp |}) ∧
    dom by_version' = dom by_version ∧
    dom (titles (results s')) = dom (titles (results s)) ∧
    versions (results s') !! library_version s = Some st' ∧
    tested_count st' = count_of tested_count (results s) (library_version s) + 1 ∧
    correct_count st' = count_of correct_count (results s) (library_version s)
                        + (if correct then 1 else 0).
Proof.
  intros Ht0 Hold.
  destruct (record_result_run title parsed correct note s)
    as (s' & Hrun & Hv & Ht & _).
  eexists s', _, _. split; [exact Hrun|].
  split. { rewrite Ht. apply lookup_insert_eq. }
  split. { eexists. rewrite Ht0. simpl. apply lookup_insert_eq. }
  split.
  { rewrite Ht0. simpl. rewrite dom_insert_L.
    assert (library_version s ∈ dom by_version) by (apply elem_of_dom; eauto).
    set_solver. }
  split.
  { rewrite Ht, dom_insert_L.
    assert (title ∈ dom (titles (results s))) by (apply elem_of_dom; eauto).
    set_solver. }
  split. { rewrite Hv. apply lookup_insert_eq. }
  split; reflexivity.
Qed.

Lemma record_result_counts_ok title parsed correct note s :
  counts_ok (results s) →
  counts_ok (results (record_result title parsed correct note s).2).
Proof.
  intros Hok.
  destruct (record_result_run title parsed correct note s)
    as (s' & Hrun & Hv & _).
  rewrite Hrun. simpl. intros version st. rewrite Hv.
  destruct (decide (library_version s = version)) as [<-|Hne].
  - rewrite lookup_insert_eq. intros [= <-]. simpl. unfold count_of.
    destruct (versions (results s) !! library_version s) as [st0|] eqn:E.
    + specialize (Hok _ _ E). destruct correct; lia.
    + destruct correct; lia.
  - rewrite lookup_insert_ne by done. apply Hok.
Qed.

Lemma record_result_monotone title parsed correct note s version st :
  versions (results s) !! version = Some st →
  ∃ st', versions (results (record_result title parsed correct note s).2) !! version
         = Some st' ∧
         tested_count st ≤ tested_count st' ∧
         correct_count st ≤ correct_count st'.
Proof.
  intros Hst.
  destruct (record_result_run title parsed correct note s)
    as (s' & Hrun & Hv & _).
  rewrite Hrun. simpl. rewrite Hv.
  destruct (decide (library_version s = version)) as [<-|Hne].
  - rewrite lookup_insert_eq. eexists. split; [reflexivity|]. simpl.
    unfold count_of. rewrite Hst. destruct correct; lia.
  - rewrite lookup_insert_ne by done. exists st. split; [done|]. lia.
Qed.

(** ** The sampler *)

Lemma is_untested_spec r version title :
  is_untested r version title = true ↔ verdict_of r version title = None.
Proof.
  unfold is_untested, verdict_of.
  destruct (titles r !! title) as [bv|]; simpl; [|done].
  destruct (bv !! version); simpl; split; congruence.
Qed.

Lemma choice_elem (l : list string) s :
  l ≠ [] →
  ∃ x, choice l s = (Returned x, set_draws (S (draws s)) s) ∧ x ∈ l.
Proof.
  intros Hne. destruct l as [|a l]; [done|].
  unfold choice, randbelow. unfold_monad.
  set (i := (rng s (draws s) mod length (a :: l))%nat).
  assert (Hi : (i < length (a :: l))%nat).
  { apply Nat.mod_upper_bound. simpl. lia. }
  destruct (lookup_lt_is_Some_2 _ _ Hi) as [x Hx].
  exists x. rewrite Hx. split; [reflexivity|].
  apply list_elem_of_lookup. eauto.
Qed.

(** C3. [get_random_untested_title] returns [None] or a title of the
    dataset; a title it returns has no entry for the tester's version in the
    document; and it returns [None] exactly when every title of the dataset
    has such an entry. *)
Theorem get_random_untested_title_spec s :
  ∃ r s',
    get_random_untested_title s = (Returned r, s') ∧
    (∀ title, r = Some title →
       title ∈ torrent_titles s ∧
       verdict_of (results s) (library_version s) title = None) ∧
    (r = None ↔
       ∀ title, title ∈ torrent_titles s →
         is_Some (verdict_of (results s) (library_version s) title)).
Proof.
  unfold get_random_untested_title. unfold_monad.
  destruct (List.filter (is_untested (results s) (library_version s)) (torrent_titles s))
    as [|a l] eqn:E.
  - exists None, s. split; [reflexivity|]. split; [done|].
    split; [|done]. intros _ title Hin.
    destruct (verdict_of (results s) (library_version s) title) eqn:Hv; [eauto|].
    apply is_untested_spec in Hv.
    assert (In title (List.filter (is_untested (results s) (library_version s))
                        (torrent_titles s))) as Hf.
    { apply filter_In. split; [by apply list_elem_of_In|done]. }
    rewrite E in Hf. destruct Hf.
  - destruct (choice_elem (a :: l) s) as (x & Hx & Hin); [done|].
    assert (In x (List.filter (is_untested (results s) (library_version s))
                    (torrent_titles s))) as Hf.
    { rewrite E. by apply list_elem_of_In. }
    apply filter_In in Hf as [Hds Hun].
    exists (Some x), (set_draws (S (draws s)) s).
    split. { by rewrite Hx. }
    split.
    + intros title [= <-]. split; [by apply list_elem_of_In|].
      by apply is_untested_spec.
    + split; [done|]. intros Hall. exfalso.
      apply list_elem_of_In in Hds. destruct (Hall x Hds) as [v Hv].
      apply is_untested_spec in Hun. congruence.
Qed.

(** ** Loading the results *)

Lemma append_ne_self (p x : string) : x ≠ EmptyString → (p ++ x)%string ≠ p.
Proof.
  intros Hx. induction p as [|c p IH]; simpl; [done|].
  intros [= H]. by apply IH.
Qed.

Lemma backup_path_fresh path stamp : backup_path_of path stamp ≠ path.
Proof. unfold backup_path_of. by apply append_ne_self. Qed.


(** ** The statistics report *)


(** C7, as the code has it.  The untested count of the report is the number
    of dataset entries without a verdict under the tester's version, that
    is, the size of the dataset minus the number of its entries that have
    one; [tested_count] does not enter it. *)
Theorem print_statistics_untested s :
  ∃ report,
    print_statistics s = (Returned tt, emit (Statistics report) s) ∧
    (report = None ↔ torrent_titles s = []) ∧
    ∀ rep, report = Some rep →
      total_titles rep = length (torrent_titles s) ∧
      tested_this_version rep
        = count_of tested_count (results s) (library_version s) ∧
      untested_count rep =
        (length (torrent_titles s)
         - length (List.filter
                     (λ title, bool_decide
                        (is_Some (verdict_of (results s) (library_version s) title)))
                     (torrent_titles s)))%nat.
Proof.
  assert (Hlen : ∀ xs : list string,
    length (List.filter (is_untested (results s) (library_version s)) xs) =
    (length xs - length (List.filter
       (λ title, bool_decide
          (is_Some (verdict_of (results s) (library_version s) title))) xs))%nat).
  { induction xs as [|x xs IH]; [done|]. simpl.
    pose proof (List.filter_length_le
      (λ title, bool_decide
          (is_Some (verdict_of (results s) (library_version s) title))) xs).
    pose proof (is_untested_spec (results s) (library_version s) x) as Hu.
    destruct (is_untested (results s) (library_version s) x);
      destruct (verdict_of (results s) (library_version s) x) eqn:Hv;
      simpl; try lia.
    - by destruct Hu as [Hu _]; specialize (Hu eq_refl).
    - by destruct Hu as [_ Hu]; specialize (Hu eq_refl). }
  unfold print_statistics, truediv, count_of. unfold_monad.
  destruct (torrent_titles s) as [|a l] eqn:Hds.
  { eexists. split; [reflexivity|]. done. }
  destruct (versions (results s) !! library_version s) as [st|] eqn:Ev;
    [destruct (0 <? tested_count st) eqn:Hpos;
       [destruct (decide (tested_count st = 0));
          [apply Z.ltb_lt in Hpos; lia|]|]|];
    (eexists; split; [reflexivity|]); (split; [done|]);
    intros rep [= <-]; cbn [total_titles tested_this_version untested_count];
    (split; [done|]); (split; [done|]); apply (Hlen (a :: l)).
Qed.

Lemma print_statistics_run s :
  ∃ report,
    print_statistics s = (Returned tt, emit (Statistics report) s) ∧
    (report = None ↔ torrent_titles s = []).
Proof.
  unfold print_statistics, truediv. unfold_monad.
  destruct (torrent_titles s) as [|a l] eqn:Hds.
  { eexists. split; [reflexivity|]. done. }
  destruct (versions (results s) !! library_version s) as [st|] eqn:Ev;
    [destruct (0 <? tested_count st) eqn:Hpos;
       [destruct (decide (tested_count st = 0));
          [apply Z.ltb_lt in Hpos; lia|]|]|];
    (eexists; split; [reflexivity|]); done.
Qed.

Lemma final_step_run s :
  ∃ f written report,
    final_step s = (Returned tt,
                    emit (Statistics report)
                      (emit (Saved (results s) written) (set_files f s))) ∧
    (report = None ↔ torrent_titles s = []).
Proof.
  unfold final_step.
  destruct (save_results_run s) as (f & written & Hsave).
  destruct (print_statistics_run
              (emit (Saved (results s) written) (set_files f s)))
    as (report & Hprint & Hnone).
  exists f, written, report. split; [|done].
  erewrite bind_returned by exact Hsave. exact Hprint.
Qed.

(** ** The session *)

Create HintDb tame.

Ltac tame_base :=
  repeat split; simpl; try done; try lia;
  try (by repeat apply prefix_app_r).

Lemma tame_ret {A} (a : A) : tame (mret a).
Proof. intros s. tame_base. Qed.

Lemma tame_raise {A} e : tame (@raise A e).
Proof. intros s. tame_base. Qed.

Lemma tame_get {A} (f : State → A) : tame (get f).
Proof. intros s. tame_base. Qed.

Lemma tame_modify f :
  (∀ s, stdin (f s) = stdin s ∧ out s `prefix_of` out (f s)) → tame (modify f).
Proof. intros H s. destruct (H s) as [H1 H2]. simpl. rewrite H1. tame_base. Qed.

Lemma tame_print text : tame (print text).
Proof. apply tame_modify. intros s. tame_base. Qed.

Lemma tame_bind {A B} (m : M A) (f : A → M B) :
  tame m → (∀ a, tame (f a)) → tame (m ≫= f).
Proof.
  intros Hm Hf s. destruct (Hm s) as (H1 & H2 & H3). unfold mbind, M_bind.
  destruct (m s) as [[a|e|] s1]; simpl in *; try done.
  destruct (Hf a s1) as (H4 & H5 & H6).
  split; [done|]. split; [lia|]. by etrans.
Qed.

Lemma tame_try_except {A} (m h : M A) catches :
  tame m → tame h → tame (try_except m catches h).
Proof.
  intros Hm Hh s. destruct (Hm s) as (H1 & H2 & H3). unfold try_except.
  destruct (m s) as [[a|e|] s1]; simpl in *; try done.
  destruct (catches e); simpl; [|done].
  destruct (Hh s1) as (H4 & H5 & H6).
  split; [done|]. split; [lia|]. by etrans.
Qed.

Lemma tame_now : tame now.
Proof. intros s. tame_base. Qed.

Lemma tame_randbelow n : tame (randbelow n).
Proof. intros s. tame_base. Qed.

#[local] Hint Resolve tame_ret tame_raise tame_get tame_print tame_now
  tame_randbelow : tame.
#[local] Hint Extern 2 (tame (_ ≫= _)) => apply tame_bind; [|intros] : tame.
#[local] Hint Extern 2 (tame (modify _)) =>
  apply tame_modify; intros ?; tame_base : tame.
#[local] Hint Extern 3 (tame (match ?x with _ => _ end)) => destruct x : tame.
#[local] Hint Extern 3 (tame (if ?x then _ else _)) => destruct x : tame.

Ltac tame := eauto 40 with tame.

Lemma tame_input prompt : tame (input prompt).
Proof.
  intros s. unfold input.
  destruct (stdin s) as [|[l|] rest] eqn:E; simpl; rewrite ?E; tame_base.
Qed.

Lemma tame_choice l : tame (choice l).
Proof. unfold choice. destruct l; tame. Qed.

Lemma tame_shuffle_from i x : tame (shuffle_from i x).
Proof. revert x. induction i as [|i IH]; intros x; simpl; tame. Qed.

Lemma tame_shuffle x : tame (shuffle x).
Proof. apply tame_shuffle_from. Qed.

Lemma tame_save_results : tame save_results.
Proof. intros s. destruct (save_results_run s) as (f & w & ->). tame_base. Qed.

Lemma tame_record_result title parsed correct note :
  tame (record_result title parsed correct note).
Proof.
  intros s.
  destruct (record_result_run title parsed correct note s)
    as (s' & -> & _ & _ & _ & _ & _ & Hin & w & Hout).
  simpl. rewrite Hin, Hout. tame_base.
Qed.

Lemma tame_truediv a b : tame (truediv a b).
Proof. unfold truediv. tame. Qed.

#[local] Hint Resolve tame_input tame_choice tame_shuffle tame_save_results
  tame_record_result tame_truediv : tame.

Lemma tame_print_statistics : tame print_statistics.
Proof. unfold print_statistics. tame. Qed.

Lemma tame_get_random_untested_title : tame get_random_untested_title.
Proof. unfold get_random_untested_title. tame. Qed.

Lemma tame_get_previously_tested_titles : tame get_previously_tested_titles.
Proof. unfold get_previously_tested_titles. tame. Qed.

Lemma ask_verdict_from_spec pending :
  ∀ s, stdin s = pending →
    (ask_verdict_from pending s).1 ≠ OutOfFuel ∧
    (length (stdin (ask_verdict_from pending s).2) ≤ length pending)%nat ∧
    out s `prefix_of` out (ask_verdict_from pending s).2 ∧
    ∀ a, (ask_verdict_from pending s).1 = Returned a →
         (length (stdin (ask_verdict_from pending s).2) < length pending)%nat.
Proof.
  induction pending as [|[l|] rest IH]; intros s Hs; simpl.
  - rewrite Hs. tame_base.
  - destruct (valid_response (lower l)); simpl.
    + tame_base.
    + edestruct IH as (H1 & H2 & H3 & H4);
        [|split; [exact H1|split; [lia|split]]].
      * reflexivity.
      * etrans; [|exact H3]. tame_base.
      * intros a Ha. specialize (H4 a Ha). lia.
  - tame_base.
Qed.

Lemma tame_ask_verdict : tame ask_verdict.
Proof.
  intros s. unfold ask_verdict.
  destruct (ask_verdict_from_spec (stdin s) s eq_refl) as (H1 & H2 & H3 & _).
  done.
Qed.

Lemma consuming_ask_verdict : consuming ask_verdict.
Proof.
  intros s a s' H. unfold ask_verdict in H.
  destruct (ask_verdict_from_spec (stdin s) s eq_refl) as (_ & _ & _ & H3).
  rewrite H in H3. simpl in H3. eauto.
Qed.

Lemma consuming_bind_l {A B} (m : M A) (f : A → M B) :
  consuming m → (∀ a, tame (f a)) → consuming (m ≫= f).
Proof.
  intros Hm Hf s b s' H. unfold mbind, M_bind in H.
  destruct (m s) as [[a|e|] s1] eqn:E; try done.
  specialize (Hm _ _ _ E). destruct (Hf a s1) as (_ & Hle & _).
  rewrite H in Hle. simpl in Hle. lia.
Qed.

Lemma consuming_bind_r {A B} (m : M A) (f : A → M B) :
  tame m → (∀ a, consuming (f a)) → consuming (m ≫= f).
Proof.
  intros Hm Hf s b s' H. unfold mbind, M_bind in H.
  destruct (m s) as [[a|e|] s1] eqn:E; try done.
  destruct (Hm s) as (_ & Hle & _). rewrite E in Hle. simpl in Hle.
  specialize (Hf _ _ _ _ H). lia.
Qed.

#[local] Hint Resolve tame_print_statistics tame_get_random_untested_title
  tame_get_previously_tested_titles tame_ask_verdict : tame.

(** ** What the session does to the document *)

Lemma counters_le_refl d : counters_le d d.
Proof. intros version st H. exists st. split; [done|lia]. Qed.

Lemma counters_le_trans d1 d2 d3 :
  counters_le d1 d2 → counters_le d2 d3 → counters_le d1 d3.
Proof.
  intros H12 H23 version st H.
  destruct (H12 _ _ H) as (st2 & H2 & ? & ?).
  destruct (H23 _ _ H2) as (st3 & H3 & ? & ?).
  exists st3. split; [done|lia].
Qed.

Create HintDb steady.

Lemma steady_same {A} (m : M A) : (∀ s, results (m s).2 = results s) → steady m.
Proof.
  intros H s. rewrite H. split; [apply counters_le_refl|done].
Qed.

Lemma steady_ret {A} (a : A) : steady (mret a).
Proof. by apply steady_same. Qed.

Lemma steady_raise {A} e : steady (@raise A e).
Proof. by apply steady_same. Qed.

Lemma steady_get {A} (f : State → A) : steady (get f).
Proof. by apply steady_same. Qed.

Lemma steady_modify f : (∀ s, results (f s) = results s) → steady (modify f).
Proof. intros H. by apply steady_same. Qed.

Lemma steady_print text : steady (print text).
Proof. by apply steady_same. Qed.

Lemma steady_bind {A B} (m : M A) (f : A → M B) :
  steady m → (∀ a, steady (f a)) → steady (m ≫= f).
Proof.
  intros Hm Hf s. destruct (Hm s) as [H1 H2]. unfold mbind, M_bind.
  destruct (m s) as [[a|e|] s1]; simpl in *; try done.
  destruct (Hf a s1) as [H3 H4].
  split; [by eapply counters_le_trans|auto].
Qed.

Lemma steady_try_except {A} (m h : M A) catches :
  steady m → steady h → steady (try_except m catches h).
Proof.
  intros Hm Hh s. destruct (Hm s) as [H1 H2]. unfold try_except.
  destruct (m s) as [[a|e|] s1]; simpl in *; try done.
  destruct (catches e); simpl; [|done].
  destruct (Hh s1) as [H3 H4].
  split; [by eapply counters_le_trans|auto].
Qed.

Lemma steady_try_finally {A} (m : M A) (f : M unit) :
  steady m → steady f → steady (try_finally m f).
Proof.
  intros Hm Hf s. destruct (Hm s) as [H1 H2]. unfold try_finally.
  destruct (m s) as [r s1]; simpl in *.
  destruct (Hf s1) as [H3 H4].
  destruct r as [a|e|]; [| |done];
    destruct (f s1) as [[[]|e'|] s2]; simpl in *;
    (split; [by eapply counters_le_trans|auto]).
Qed.

Lemma steady_now : steady now.
Proof. by apply steady_same. Qed.

Lemma steady_randbelow n : steady (randbelow n).
Proof. by apply steady_same. Qed.

Lemma steady_input prompt : steady (input prompt).
Proof.
  apply steady_same. intros s. unfold input.
  by destruct (stdin s) as [|[l|] rest].
Qed.

Lemma steady_save_results : steady save_results.
Proof.
  apply steady_same. intros s. by destruct (save_results_run s) as (f & w & ->).
Qed.

Lemma steady_record_result title parsed correct note :
  steady (record_result title parsed correct note).
Proof.
  intros s. split.
  - intros version st. apply record_result_monotone.
  - apply reachable_record.
Qed.

Lemma steady_ask_verdict : steady ask_verdict.
Proof.
  apply steady_same. intros s. unfold ask_verdict.
  assert (∀ pending s0, results (ask_verdict_from pending s0).2 = results s0) as H.
  { induction pending as [|[l|] rest IH]; intros s0; simpl; try done.
    destruct (valid_response (lower l)); [done|]. by rewrite IH. }
  apply H.
Qed.

#[local] Hint Resolve steady_ret steady_raise steady_get steady_print steady_now
  steady_randbelow steady_input steady_save_results steady_record_result
  steady_ask_verdict : steady.
#[local] Hint Extern 2 (steady (_ ≫= _)) => apply steady_bind; [|intros] : steady.
#[local] Hint Extern 2 (steady (modify _)) =>
  apply steady_modify; reflexivity : steady.
#[local] Hint Extern 3 (steady (match ?x with _ => _ end)) => destruct x : steady.
#[local] Hint Extern 3 (steady (if ?x then _ else _)) => destruct x : steady.

Ltac steady := eauto 40 with steady.

Lemma steady_choice l : steady (choice l).
Proof. unfold choice. destruct l; steady. Qed.

Lemma steady_shuffle x : steady (shuffle x).
Proof.
  unfold shuffle. generalize (length x - 1)%nat. intros i. revert x.
  induction i as [|i IH]; intros x; simpl; steady.
Qed.

Lemma steady_truediv a b : steady (truediv a b).
Proof. unfold truediv. steady. Qed.

#[local] Hint Resolve steady_choice steady_shuffle steady_truediv : steady.

Lemma steady_print_statistics : steady print_statistics.
Proof. unfold print_statistics. steady. Qed.

Lemma steady_get_random_untested_title : steady get_random_untested_title.
Proof. unfold get_random_untested_title. steady. Qed.

Lemma steady_get_previously_tested_titles : steady get_previously_tested_titles.
Proof. unfold get_previously_tested_titles. steady. Qed.

#[local] Hint Resolve steady_print_statistics steady_get_random_untested_title
  steady_get_previously_tested_titles : steady.

Section SessionProperties.

Variable parse_title : string → Parsed.

Lemma tame_select retest_mode titles_to_test count :
  tame (select retest_mode titles_to_test count).
Proof.
  unfold select.
  destruct (retest_mode && (length titles_to_test <=? count)%nat); [tame|].
  destruct retest_mode; [tame|].
  apply tame_bind; [tame|]. intros [[|c rest]|]; tame.
Qed.

Lemma tame_periodic count : tame (periodic count).
Proof. unfold periodic. tame. Qed.

Lemma tame_judge title count : tame (judge parse_title title count).
Proof. pose proof tame_periodic. unfold judge. tame. Qed.

Lemma consuming_judge title count : consuming (judge parse_title title count).
Proof.
  unfold judge. apply consuming_bind_r; [tame|]. intros _.
  apply consuming_bind_l; [apply consuming_ask_verdict|]. intros response.
  pose proof tame_periodic. tame.
Qed.

Lemma tame_round retest_mode titles_to_test count :
  tame (round parse_title retest_mode titles_to_test count).
Proof.
  unfold round. apply tame_bind; [apply tame_select|].
  intros [title|]; [apply tame_judge|tame].
Qed.

Lemma round_continue_consumes retest_mode titles_to_test count s count' s' :
  round parse_title retest_mode titles_to_test count s
    = (Returned (Continue count'), s') →
  (length (stdin s') < length (stdin s))%nat.
Proof.
  unfold round, mbind, M_bind. intros H.
  destruct (tame_select retest_mode titles_to_test count s) as (_ & Hle & _).
  destruct (select retest_mode titles_to_test count s) as [[[title|]|e|] s1];
    simpl in *; try done.
  apply consuming_judge in H. lia.
Qed.

(** The bound of [interactive_testing] is never reached. *)
Lemma loop_ends fuel retest_mode titles_to_test :
  ∀ count s, (length (stdin s) < fuel)%nat →
    (loop parse_title fuel retest_mode titles_to_test count s).1 ≠ OutOfFuel.
Proof.
  induction fuel as [|fuel IH]; intros count s Hlen; [lia|].
  simpl. unfold mbind, M_bind.
  destruct (tame_round retest_mode titles_to_test count s) as (Hne & _).
  destruct (round parse_title retest_mode titles_to_test count s)
    as [[[|count']|e|] s1] eqn:E; simpl in *; try done.
  apply IH. apply round_continue_consumes in E. lia.
Qed.

Lemma session_body_ends retest_mode s fuel :
  (length (stdin s) < fuel)%nat →
  (session_body parse_title fuel retest_mode s).1 ≠ OutOfFuel.
Proof.
  intros Hlen. unfold session_body. destruct retest_mode.
  - unfold mbind, M_bind.
    destruct (tame_get_previously_tested_titles s) as (Hne & Hle & _).
    destruct (get_previously_tested_titles s) as [[tested|e|] s1];
      simpl in *; try done.
    destruct tested as [|t tested]; [done|].
    destruct (tame_shuffle (t :: tested) s1) as (Hne2 & Hle2 & _).
    destruct (shuffle (t :: tested) s1) as [[shuffled|e|] s2];
      simpl in *; try done.
    apply loop_ends. lia.
  - by apply loop_ends.
Qed.

Lemma loop_log fuel retest_mode titles_to_test :
  ∀ count s,
    out s `prefix_of`
      out (loop parse_title fuel retest_mode titles_to_test count s).2.
Proof.
  induction fuel as [|fuel IH]; intros count s; [done|].
  simpl. unfold mbind, M_bind.
  destruct (tame_round retest_mode titles_to_test count s) as (_ & _ & Hpre).
  destruct (round parse_title retest_mode titles_to_test count s)
    as [[[|count']|e|] s1]; simpl in *; try done.
  etrans; [exact Hpre|apply IH].
Qed.

Lemma session_body_log retest_mode s fuel :
  out s `prefix_of` out (session_body parse_title fuel retest_mode s).2.
Proof.
  unfold session_body. destruct retest_mode; [|apply loop_log].
  unfold mbind, M_bind.
  destruct (tame_get_previously_tested_titles s) as (_ & _ & Hpre).
  destruct (get_previously_tested_titles s) as [[tested|e|] s1];
    simpl in *; try done.
  destruct tested as [|t tested].
  { etrans; [exact Hpre|]. tame_base. }
  destruct (tame_shuffle (t :: tested) s1) as (_ & _ & Hpre2).
  destruct (shuffle (t :: tested) s1) as [[shuffled|e|] s2];
    simpl in *; try (by etrans).
  etrans; [exact Hpre|]. etrans; [exact Hpre2|]. apply loop_log.
Qed.

Lemma guarded_body_ends retest_mode s :
  let guarded :=
    try_except (session_body parse_title (S (length (stdin s))) retest_mode)
      is_KeyboardInterrupt (print "Test session interrupted.") in
  (guarded s).1 ≠ OutOfFuel ∧
  (guarded s).1 ≠ Raised KeyboardInterrupt ∧
  out s `prefix_of` out (guarded s).2.
Proof.
  intros guarded. subst guarded. unfold try_except.
  pose proof (session_body_ends retest_mode s (S (length (stdin s)))
                ltac:(lia)) as Hends.
  pose proof (session_body_log retest_mode s (S (length (stdin s)))) as Hlog.
  destruct (session_body parse_title (S (length (stdin s))) retest_mode s)
    as [[[]|e|] s0]; simpl in *; [done| |done].
  destruct e; simpl; repeat split; try done.
  etrans; [exact Hlog|]. tame_base.
Qed.


(** What the end of a recorded pass prints, for the value [count] of the
    counter after the increment. *)
Lemma periodic_spec count s :
  ∃ r s' evs,
    periodic count s = (r, s') ∧
    out s' = (out s ++ evs)%list ∧
    ((∃ rep, Statistics rep ∈ evs) ↔ (count mod 5 = 0)%nat) ∧
    (Prompt continue_prompt ∈ evs ↔ (count mod 10 = 0)%nat) ∧
    (∀ c, r = Returned (Continue c) → c = count).
Proof.
  unfold periodic.
  assert (Hstat : ∃ s1 evs1,
    (if (count mod 5 =? 0)%nat then print_statistics else mret ()) s
      = (Returned (), s1) ∧
    out s1 = (out s ++ evs1)%list ∧
    ((∃ rep, Statistics rep ∈ evs1) ↔ (count mod 5 = 0)%nat) ∧
    Prompt continue_prompt ∉ evs1).
  { destruct (count mod 5 =? 0)%nat eqn:E5.
    - apply Nat.eqb_eq in E5.
      destruct (print_statistics_run s) as (rep & Hrun & _).
      eexists _, [Statistics rep]. split; [exact Hrun|].
      split; [done|]. split; [|set_solver].
      split; [done|]. intros _. exists rep. set_solver.
    - apply Nat.eqb_neq in E5. exists s, [].
      split; [done|]. split; [by rewrite app_nil_r|].
      split; [|set_solver]. split; [|done]. intros [rep Hin]. set_solver. }
  destruct Hstat as (s1 & evs1 & Hrun1 & Hout1 & Hstat & Hnoprompt).
  erewrite bind_returned by exact Hrun1.
  destruct (count mod 10 =? 0)%nat eqn:E10.
  - apply Nat.eqb_eq in E10.
    unfold input. unfold_monad.
    destruct (stdin s1) as [|[answer|] more] eqn:Hin; simpl; rewrite ?Hin.
    + eexists _, _, (evs1 ++ [Prompt continue_prompt])%list. split; [reflexivity|].
      simpl. rewrite Hout1, <- app_assoc. split; [done|].
      split; [rewrite <- Hstat; set_solver|]. split; [set_solver|done].
    + destruct ((lower answer =? "")%string || (lower answer =? "y")%string).
      * eexists _, _, (evs1 ++ [Prompt continue_prompt])%list.
        split; [reflexivity|].
        simpl. rewrite Hout1, <- app_assoc. split; [done|].
        split; [rewrite <- Hstat; set_solver|]. split; [set_solver|].
        by intros c [= <-].
      * eexists _, _, (evs1 ++ [Prompt continue_prompt;
                                Print "Ending test session."])%list.
        split; [reflexivity|].
        simpl. rewrite Hout1, <- !app_assoc. split; [done|].
        split; [rewrite <- Hstat; set_solver|]. split; [set_solver|done].
    + eexists _, _, (evs1 ++ [Prompt continue_prompt])%list. split; [reflexivity|].
      simpl. rewrite Hout1, <- app_assoc. split; [done|].
      split; [rewrite <- Hstat; set_solver|]. split; [set_solver|done].
  - apply Nat.eqb_neq in E10. exists (Returned (Continue count)), s1, evs1.
    split; [done|]. split; [done|]. split; [done|].
    split; [|by intros c [= <-]]. split; [done|lia].
Qed.

Lemma judge_skip title count s l rest :
  stdin s = Line l :: rest →
  lower l = "s" →
  judge parse_title title count s =
    (Returned (Continue (count + 1)),
     emit (Print "Skipping this title.")
       (set_stdin rest
          (emit (Prompt verdict_prompt)
             (emit (Display title (parse_title title)) s)))).
Proof.
  intros Hin Hl. unfold judge, ask_verdict, parse_torrent_title. unfold_monad.
  simpl. rewrite Hin. simpl. rewrite Hl. simpl. reflexivity.
Qed.

Lemma judge_continue title count s count' s' :
  judge parse_title title count s = (Returned (Continue count'), s') →
  count' = (count + 1)%nat.
Proof.
  unfold judge. unfold mbind at 1, M_bind at 1, modify at 1.
  unfold mbind at 1, M_bind at 1.
  destruct (ask_verdict _) as [[response|e|] s1]; try done.
  destruct (response =? "q")%string; [done|].
  destruct (response =? "s")%string; [by intros [= <- _]|].
  unfold mbind at 1, M_bind at 1.
  destruct ((if (response =? "y")%string || (response =? "")%string
             then mret EmptyString else input "Notes about this result: ") s1)
    as [[note|e|] s2]; try done.
  unfold mbind at 1, M_bind at 1.
  destruct (record_result _ _ _ _ s2) as [[[]|e|] s3]; try done.
  destruct (periodic_spec (count + 1) s3) as (r & s4 & evs & -> & _ & _ & _ & Hc).
  intros [= -> _]. by apply Hc.
Qed.

Lemma round_continue retest_mode titles_to_test count s count' s' :
  round parse_title retest_mode titles_to_test count s
    = (Returned (Continue count'), s') →
  count' = (count + 1)%nat.
Proof.
  unfold round, mbind, M_bind.
  destruct (select retest_mode titles_to_test count s) as [[[title|]|e|] s1];
    try done.
  apply judge_continue.
Qed.

Lemma judge_affirm title count s l rest :
  stdin s = Line l :: rest →
  lower l = "y" ∨ lower l = EmptyString →
  ∃ s1,
    record_result title (parse_title title) true EmptyString
      (set_stdin rest
         (emit (Prompt verdict_prompt)
            (emit (Display title (parse_title title)) s)))
      = (Returned tt, s1) ∧
    judge parse_title title count s = periodic (count + 1) s1.
Proof.
  intros Hin Hl.
  destruct (record_result_run title (parse_title title) true EmptyString
              (set_stdin rest
                 (emit (Prompt verdict_prompt)
                    (emit (Display title (parse_title title)) s))))
    as (s1 & Hrun & _).
  exists s1. split; [exact Hrun|].
  unfold judge, ask_verdict, parse_torrent_title.
  unfold mbind at 1, M_bind at 1, modify at 1.
  unfold mbind at 1, M_bind at 1.
  simpl. rewrite Hin. simpl.
  destruct Hl as [-> | ->]; simpl;
    unfold mbind at 1, M_bind at 1, mret at 1, M_ret at 1;
    unfold mbind at 1, M_bind at 1; by rewrite Hrun.
Qed.

Lemma loop_skips titles_to_test k :
  ∀ fuel count s rest,
    stdin s = (replicate k (Line "s") ++ rest)%list →
    (count + k ≤ length titles_to_test)%nat →
    ∃ s',
      loop parse_title (k + fuel) true titles_to_test count s
        = loop parse_title fuel true titles_to_test (count + k) s' ∧
      results s' = results s ∧
      stdin s' = rest.
Proof.
  induction k as [|k IH]; intros fuel count s rest Hin Hlen.
  { exists s. by rewrite Nat.add_0_r. }
  assert (Hlt : (count < length titles_to_test)%nat) by lia.
  destruct (lookup_lt_is_Some_2 _ _ Hlt) as [title Htitle].
  assert (Hround :
    round parse_title true titles_to_test count s =
      (Returned (Continue (count + 1)),
       emit (Print "Skipping this title.")
         (set_stdin (replicate k (Line "s") ++ rest)
            (emit (Prompt verdict_prompt)
               (emit (Display title (parse_title title)) s))))).
  { unfold round, select. simpl.
    replace (length titles_to_test <=? count)%nat with false
      by (symmetry; apply Nat.leb_gt; lia).
    rewrite Htitle. unfold mbind at 1, M_bind at 1, mret at 1, M_ret at 1.
    by apply (judge_skip title count s "s"). }
  change (S k + fuel)%nat with (S (k + fuel)). simpl loop.
  erewrite bind_returned by exact Hround.
  edestruct (IH fuel (count + 1)%nat) as (s' & Hloop & Hres & Hrest);
    [|shelve|exists s'; split; [rewrite Hloop; f_equal; lia|split; [|exact Hrest]]].
  - reflexivity.
  - by rewrite Hres.
  Unshelve. lia.
Qed.

(** C9. A skipped pass and a recorded pass advance one and the same
    counter: every pass after which the loop goes on hands [count + 1] to
    the next pass; a skipped pass records nothing and goes on with
    [count + 1]; after [k] skipped passes the loop is at [count + k]; and
    a recorded pass prints the statistics exactly when [count + 1] is a
    multiple of 5 and asks whether to continue exactly when it is a
    multiple of 10.  So skipped passes count toward both. *)
Theorem skipped_round_counts retest_mode titles_to_test title count s l rest :
  stdin s = Line l :: rest →
  (∀ s0 count' s',
     round parse_title retest_mode titles_to_test count s0
       = (Returned (Continue count'), s') →
     count' = (count + 1)%nat) ∧
  (lower l = "s" →
     ∃ s',
       judge parse_title title count s = (Returned (Continue (count + 1)), s') ∧
       results s' = results s ∧
       out s' = (out s ++ [Display title (parse_title title);
                           Prompt verdict_prompt;
                           Print "Skipping this title."])%list) ∧
  (∀ k fuel s0 rest0,
     stdin s0 = (replicate k (Line "s") ++ rest0)%list →
     (count + k ≤ length titles_to_test)%nat →
     ∃ s',
       loop parse_title (k + fuel) true titles_to_test count s0
         = loop parse_title fuel true titles_to_test (count + k) s' ∧
       results s' = results s0 ∧ stdin s' = rest0) ∧
  (lower l = "y" ∨ lower l = EmptyString →
     ∃ s1 r s' evs,
       record_result title (parse_title title) true EmptyString
         (set_stdin rest
            (emit (Prompt verdict_prompt)
               (emit (Display title (parse_title title)) s)))
         = (Returned tt, s1) ∧
       judge parse_title title count s = (r, s') ∧
       out s' = (out s1 ++ evs)%list ∧
       ((∃ rep, Statistics rep ∈ evs) ↔ ((count + 1) mod 5 = 0)%nat) ∧
       (Prompt continue_prompt ∈ evs ↔ ((count + 1) mod 10 = 0)%nat) ∧
       (∀ c, r = Returned (Continue c) → c = (count + 1)%nat)).
Proof.
  intros Hin. split; [|split; [|split]].
  - intros s0 count' s'. apply round_continue.
  - intros Hl. eexists. split; [by apply (judge_skip title count s l rest)|].
    split; [done|]. simpl. by rewrite <- !app_assoc.
  - intros k fuel s0 rest0. apply loop_skips.
  - intros Hl.
    destruct (judge_affirm title count s l rest Hin Hl) as (s1 & Hrec & Hjudge).
    destruct (periodic_spec (count + 1) s1)
      as (r & s' & evs & Hper & Hout & Hstat & Hprompt & Hc).
    exists s1, r, s', evs. rewrite Hjudge. done.
Qed.

Lemma steady_select retest_mode titles_to_test count :
  steady (select retest_mode titles_to_test count).
Proof.
  unfold select.
  destruct (retest_mode && (length titles_to_test <=? count)%nat); [steady|].
  destruct retest_mode; [steady|].
  apply steady_bind; [steady|]. intros [[|c rest]|]; steady.
Qed.

Lemma steady_periodic count : steady (periodic count).
Proof. unfold periodic. steady. Qed.

Lemma steady_judge title count : steady (judge parse_title title count).
Proof. pose proof steady_periodic. unfold judge. steady. Qed.

Lemma steady_round retest_mode titles_to_test count :
  steady (round parse_title retest_mode titles_to_test count).
Proof.
  unfold round. apply steady_bind; [apply steady_select|].
  intros [title|]; [apply steady_judge|steady].
Qed.

Lemma steady_loop fuel retest_mode titles_to_test :
  ∀ count, steady (loop parse_title fuel retest_mode titles_to_test count).
Proof.
  induction fuel as [|fuel IH]; intros count; simpl.
  - by apply steady_same.
  - apply steady_bind; [apply steady_round|]. intros [|count']; [steady|apply IH].
Qed.

Lemma steady_session_body fuel retest_mode :
  steady (session_body parse_title fuel retest_mode).
Proof.
  pose proof steady_loop. unfold session_body. destruct retest_mode; [|done].
  apply steady_bind; [steady|]. intros [|t tested]; steady.
Qed.

Lemma steady_interactive_testing retest_mode :
  steady (interactive_testing parse_title retest_mode).
Proof.
  intros s. unfold interactive_testing, interactive_testing_fuel.
  apply steady_try_finally.
  - apply steady_try_except; [apply steady_session_body|steady].
  - unfold final_step. steady.
Qed.

(** C6. In every document built from the empty one by calls of
    [record_result] (under any version, for any title), each version's
    statistics satisfy [0 <= correct_count <= tested_count].  On such a
    document a call of [record_result], and a whole interactive session
    with all it does, keep every version present with counters that are at
    least what they were, and end in a document of the same kind. *)
Theorem reachable_counts_ok d :
  reachable d →
  counts_ok d ∧
  (∀ s title parsed correct note,
     results s = d →
     counters_le d (results (record_result title parsed correct note s).2) ∧
     counts_ok (results (record_result title parsed correct note s).2)) ∧
  (∀ s retest_mode,
     results s = d →
     (interactive_testing parse_title retest_mode s).1 ≠ OutOfFuel ∧
     counters_le d (results (interactive_testing parse_title retest_mode s).2) ∧
     counts_ok (results (interactive_testing parse_title retest_mode s).2)).
Proof.
  assert (Hok : ∀ d0, reachable d0 → counts_ok d0).
  { intros d0 H. induction H as [|s title parsed correct note _ IH].
    - intros version st. simpl. by rewrite lookup_empty.
    - by apply record_result_counts_ok. }
  intros Hreach. split; [by apply Hok|]. split.
  - intros s title parsed correct note <-.
    destruct (steady_record_result title parsed correct note s) as [Hle Hr].
    split; [exact Hle|]. apply Hok. by apply Hr.
  - intros s retest_mode <-.
    destruct (steady_interactive_testing retest_mode s) as [Hle Hr].
    split; [|split; [exact Hle|apply Hok; by apply Hr]].
    unfold interactive_testing, interactive_testing_fuel, try_finally.
    destruct (guarded_body_ends retest_mode s) as (Hr1 & _ & _).
    destruct (try_except
                (session_body parse_title (S (length (stdin s))) retest_mode)
                is_KeyboardInterrupt (print "Test session interrupted.") s)
      as [r1 s1]; simpl in *.
    destruct (final_step_run s1) as (f & written & report & Hfin & _).
    destruct r1; by rewrite ?Hfin.
Qed.

End SessionProperties.

(** ** The theorems at work *)

(** A second verdict for the pair of [example_tested]: the hypotheses of
    [rerecord_overwrites_and_counts] hold there and the count becomes 2. *)
Lemma rerecord_overwrites_and_counts_witness :
  is_Some (verdict_of (results (example_tested ["X"] "X")) "dev" "X") ∧
  ∃ s' st',
    record_result "X" (example_parser "X") false "wrong year"
      (example_tested ["X"] "X") = (Returned tt, s') ∧
    versions (results s') !! "dev" = Some st' ∧
    tested_count st' = 2.
Proof.
  split; [by eexists|].
  edestruct (rerecord_overwrites_and_counts "X" (example_parser "X") false
               "wrong year" (example_tested ["X"] "X"))
    as (s' & bv' & st' & Hrun & _ & _ & _ & _ & Hst & Htested & _).
  - reflexivity.
  - reflexivity.
  - exists s', st'. split; [exact Hrun|]. split; [exact Hst|].
    rewrite Htested. reflexivity.
Defined.

(** The document after one verdict is reachable and within the bounds. *)
Lemma reachable_counts_ok_witness :
  reachable (results (example_tested ["a"] "a")) ∧
  counts_ok (results (example_tested ["a"] "a")).
Proof.
  assert (Hreach : reachable (results (example_tested ["a"] "a"))).
  { unfold example_tested. apply reachable_record. apply reachable_new. }
  split; [exact Hreach|].
  exact (proj1 (reachable_counts_ok example_parser _ Hreach)).
Defined.

(** The fifth pass, recorded after four others: the statistics are printed
    and the loop goes on with 5. *)
Lemma skipped_round_counts_witness :
  stdin (example_state ["a"] [Line "y"]) = [Line "y"] ∧
  ∃ r s' (evs : list event),
    judge example_parser "a" 4 (example_state ["a"] [Line "y"]) = (r, s') ∧
    (∃ rep, Statistics rep ∈ evs) ∧
    (Prompt continue_prompt ∉ evs) ∧
    ∀ c, r = Returned (Continue c) → c = 5%nat.
Proof.
  split; [reflexivity|].
  destruct (skipped_round_counts example_parser true ["a"] "a" 4
              (example_state ["a"] [Line "y"]) "y" [] eq_refl)
    as (_ & _ & _ & H).
  destruct (H (or_introl eq_refl))
    as (s1 & r & s' & evs & _ & Hjudge & _ & Hstat & Hprompt & Hc).
  exists r, s', evs. split; [exact Hjudge|].
  split; [by apply Hstat|]. split; [|exact Hc].
  intros Hin. apply Hprompt in Hin. discriminate Hin.
Defined.

(** C2, against the claim: after a first verdict for a pair its version has
    [tested_count = 1], and after a second verdict for the same pair it has
    [tested_count = 2] and [correct_count = 2]: the counters are incremented
    a second time. *)
Lemma rerecord_increments_again :
  let s1 := example_tested ["X"] "X" in
  let s2 := (record_result "X" (example_parser "X") true EmptyString s1).2 in
  is_Some (verdict_of (results s1) "dev" "X") ∧
  count_of tested_count (results s1) "dev" = 1 ∧
  count_of correct_count (results s1) "dev" = 1 ∧
  count_of tested_count (results s2) "dev" = 2 ∧
  count_of correct_count (results s2) "dev" = 2.
Proof. simpl. split; [by eexists|]. by vm_compute. Qed.


(** C7, against the claim: with the dataset ["a"; "a"] and one verdict for
    "a", the report has 2 titles, 1 tested and 0 untested, not 2 - 1; with
    the dataset ["a"; "b"] and two verdicts for "a", it has 2 titles, 2
    tested and 1 untested, not 2 - 2. *)
Lemma untested_is_not_total_minus_tested :
  (∃ rep, print_statistics (example_tested ["a"; "a"] "a")
            = (Returned tt,
               emit (Statistics (Some rep)) (example_tested ["a"; "a"] "a")) ∧
          total_titles rep = 2%nat ∧ tested_this_version rep = 1 ∧
          untested_count rep = 0%nat) ∧
  (let s2 := (record_result "a" (example_parser "a") true EmptyString
                (example_tested ["a"; "b"] "a")).2 in
   ∃ rep, print_statistics s2 = (Returned tt, emit (Statistics (Some rep)) s2) ∧
          total_titles rep = 2%nat ∧ tested_this_version rep = 2 ∧
          untested_count rep = 1%nat).
Proof.
  split.
  - eexists. split; [by vm_compute|]. by vm_compute.
  - simpl. eexists. split; [by vm_compute|]. by vm_compute.
Qed.

(** The three ways out of a session, on two titles: everything tested, the
    user quits, an interrupt arrives.  Each ends with the save and the
    report. *)
Example session_done :
  ∃ s' d w rep,
    interactive_testing example_parser false
      (example_state ["a"; "b"] [Line "y"; Line "n"; Line "wrong year"])
      = (Returned tt, s') ∧
    last (out s') = Some (Statistics (Some rep)) ∧
    last (removelast (out s')) = Some (Saved d w) ∧
    untested_count rep = 0%nat.
Proof. eexists _, _, _, _. by vm_compute. Qed.

Example session_quit :
  ∃ s' d w rep,
    interactive_testing example_parser false
      (example_state ["a"; "b"] [Line "Y"; Line "q"]) = (Returned tt, s') ∧
    last (out s') = Some (Statistics (Some rep)) ∧
    last (removelast (out s')) = Some (Saved d w) ∧
    untested_count rep = 1%nat.
Proof. eexists _, _, _, _. by vm_compute. Qed.

Example session_interrupted :
  ∃ s' d w rep,
    interactive_testing example_parser false
      (example_state ["a"; "b"] [Line "y"; Interrupt]) = (Returned tt, s') ∧
    last (out s') = Some (Statistics (Some rep)) ∧
    last (removelast (out s')) = Some (Saved d w) ∧
    Print "Test session interrupted." ∈ out s'.
Proof.
  eexists _, _, _, _. split; [by vm_compute|]. split; [by vm_compute|].
  split; [by vm_compute|]. vm_compute. set_solver.
Qed.



(** A verdict for "b" after one for "a": the entry of "a" is untouched and
    the version keeps the time stamp it had. *)
Lemma record_result_frame_witness :
  ∃ s' st st',
    record_result "b" (example_parser "b") false "wrong year"
      (example_tested ["a"; "b"] "a") = (Returned tt, s') ∧
    titles (results s') !! "a"
      = titles (results (example_tested ["a"; "b"] "a")) !! "a" ∧
    versions (results (example_tested ["a"; "b"] "a")) !! "dev" = Some st ∧
    versions (results s') !! "dev" = Some st' ∧
    version_timestamp st' = version_timestamp st.
Proof.
  destruct (record_result_frame "b" (example_parser "b") false "wrong year"
              (example_tested ["a"; "b"] "a"))
    as (s' & Hrun & Htitles & _ & Hstamp).
  edestruct Hstamp as (st' & Hst' & Heq); [reflexivity|].
  eexists s', _, st'. split; [exact Hrun|].
  split; [by apply Htitles|]. split; [reflexivity|]. split; [exact Hst'|exact Heq].
Defined.

(** With "a" tested and "b" not, the sampler can only return "b". *)
Lemma get_random_untested_title_spec_witness :
  ∃ s', get_random_untested_title (example_tested ["a"; "b"] "a")
        = (Returned (Some "b"), s').
Proof.
  destruct (get_random_untested_title_spec (example_tested ["a"; "b"] "a"))
    as (r & s' & Hrun & Hsome & Hnone).
  exists s'. rewrite Hrun. f_equal. f_equal.
  destruct r as [title|].
  - destruct (Hsome title eq_refl) as [Hin Hun].
    apply list_elem_of_In in Hin. vm_compute in Hin.
    destruct Hin as [<-|[<-|[]]]; [|reflexivity].
    exfalso. vm_compute in Hun. discriminate Hun.
  - exfalso. destruct Hnone as [Hnone _].
    destruct (Hnone eq_refl "b") as [v Hv].
    + apply list_elem_of_In. vm_compute. auto.
    + vm_compute in Hv. discriminate Hv.
Defined.

(** With "a" tested and "b" not, the report counts one untested title. *)
Lemma print_statistics_untested_witness :
  ∃ rep,
    print_statistics (example_tested ["a"; "b"] "a")
      = (Returned tt, emit (Statistics (Some rep)) (example_tested ["a"; "b"] "a")) ∧
    total_titles rep = 2%nat ∧ untested_count rep = 1%nat.
Proof.
  destruct (print_statistics_untested (example_tested ["a"; "b"] "a"))
    as (report & Hrun & Hnone & Hrep).
  destruct report as [rep|].
  - destruct (Hrep rep eq_refl) as (Htotal & _ & Huntested).
    exists rep. split; [exact Hrun|]. split; [exact Htotal|].
    rewrite Huntested. by vm_compute.
  - exfalso. destruct Hnone as [Hnone _]. specialize (Hnone eq_refl).
    discriminate Hnone.
Defined.

(** * Further properties *)

(** ** Asking for the verdict *)

Lemma ask_verdict_from_valid pending :
  ∀ s r s', ask_verdict_from pending s = (Returned r, s') →
            valid_response r = true.
Proof.
  induction pending as [|[l|] rest IH]; intros s r s'; simpl; try done.
  destruct (valid_response (lower l)) eqn:E.
  - by intros [= <- _].
  - apply IH.
Qed.

(** X1. Whatever is typed, [ask_verdict] only ever returns one of the five
    accepted answers, in lower case: y, n, s, q or the empty line. *)
Theorem ask_verdict_returns_valid s r s' :
  ask_verdict s = (Returned r, s') →
  r = "y" ∨ r = "n" ∨ r = "s" ∨ r = "q" ∨ r = EmptyString.
Proof.
  intros H. apply ask_verdict_from_valid in H. unfold valid_response in H.
  repeat (apply orb_prop in H as [H|H]); apply String.eqb_eq in H; auto.
Qed.

Lemma ask_verdict_returns_valid_witness :
  ∃ s', ask_verdict (example_state [] [Line "maybe"; Line "N"])
        = (Returned "n", s').
Proof.
  destruct (ask_verdict (example_state [] [Line "maybe"; Line "N"]))
    as [r s'] eqn:E.
  assert (r = Returned "n") as -> by (by vm_compute in E; injection E as <- _).
  pose proof (ask_verdict_returns_valid _ _ _ E). by exists s'.
Defined.

(** X2. Lines that are not accepted are skipped: each is answered with the
    message and a new prompt, and the first accepted line, in lower case, is
    the answer; the lines after it stay on standard input and the document
    is not touched. *)
Theorem ask_verdict_skips_invalid (bad : list string) l rest s :
  stdin s = ((Line <$> bad) ++ Line l :: rest)%list →
  Forall (λ b, valid_response (lower b) = false) bad →
  valid_response (lower l) = true →
  ∃ s',
    ask_verdict s = (Returned (lower l), s') ∧
    stdin s' = rest ∧
    results s' = results s ∧
    out s' = (out s
              ++ (bad ≫= λ _, [Prompt verdict_prompt; Print invalid_message])
              ++ [Prompt verdict_prompt])%list.
Proof.
  unfold ask_verdict. intros Hin. rewrite Hin. clear Hin.
  revert s. induction bad as [|b bad IH]; intros s Hbad Hl; simpl.
  - rewrite Hl. eexists. split; [reflexivity|]. done.
  - inversion Hbad as [|? ? Hb Hbad']; subst. rewrite Hb.
    edestruct (IH (emit (Print invalid_message)
                     (set_stdin ((Line <$> bad) ++ Line l :: rest)
                        (emit (Prompt verdict_prompt) s))))
      as (s' & Hrun & Hrest & Hres & Hout); [done..|].
    exists s'. split; [exact Hrun|]. split; [done|]. split; [done|].
    rewrite Hout. simpl. by rewrite <- !app_assoc.
Qed.

Lemma ask_verdict_skips_invalid_witness :
  ∃ s',
    ask_verdict (example_state [] [Line "maybe"; Line "x"; Line "Q"; Line "y"])
      = (Returned "q", s') ∧
    stdin s' = [Line "y"] ∧
    out s' = [Prompt verdict_prompt; Print invalid_message;
              Prompt verdict_prompt; Print invalid_message;
              Prompt verdict_prompt].
Proof.
  destruct (ask_verdict_skips_invalid ["maybe"; "x"] "Q" [Line "y"]
              (example_state [] [Line "maybe"; Line "x"; Line "Q"; Line "y"]))
    as (s' & Hrun & Hin & _ & Hout).
  - reflexivity.
  - repeat constructor.
  - reflexivity.
  - exists s'. split; [exact Hrun|]. split; [exact Hin|exact Hout].
Defined.

(** ** The results file *)

(** X3. [_load_results] only recovers from text that is not JSON.  A results
    file that exists but cannot be opened, or whose bytes are not UTF-8,
    makes it raise ([OSError], [UnicodeDecodeError]); nothing is printed, no
    backup is made and the file stays as it is. *)
Theorem load_results_propagates s n :
  files s !! results_path s = Some n →
  (n = Directory ∨ (∃ c w, n = RegularFile c false w)
   ∨ (∃ w, n = RegularFile NotUtf8 true w)) →
  ∃ e, _load_results s = (Raised e, s) ∧
       (e = OSError ∨ e = UnicodeDecodeError) ∧
       (e = UnicodeDecodeError ↔ ∃ w, n = RegularFile NotUtf8 true w).
Proof.
  intros Hfile Hn. unfold _load_results, os_path_exists, json_load.
  unfold_monad. simpl.
  rewrite bool_decide_true by (rewrite Hfile; eauto). rewrite Hfile.
  destruct Hn as [->|[(c & w & ->)|(w & ->)]].
  - exists OSError. split; [done|]. split; [auto|].
    split; [done|]. by intros [? ?].
  - exists OSError. destruct c; (split; [done|]); (split; [auto|]);
      (split; [done|]); by intros [? ?].
  - exists UnicodeDecodeError. split; [done|]. split; [auto|].
    split; [eauto|done].
Qed.

Lemma load_results_propagates_witness :
  _load_results example_undecodable = (Raised UnicodeDecodeError, example_undecodable).
Proof.
  destruct (load_results_propagates example_undecodable
              (RegularFile NotUtf8 true true)) as (e & Hrun & _ & He).
  - reflexivity.
  - right. right. by exists true.
  - destruct He as [_ He]. rewrite (He (ex_intro _ true eq_refl)) in Hrun.
    exact Hrun.
Defined.

(** X4. [_backup_results] never raises, never touches the document and
    changes no file other than the results file and its backup; when there
    is no results file it does nothing at all: no clock reading, no
    message. *)
Theorem backup_results_frame s :
  ∃ s',
    _backup_results s = (Returned tt, s') ∧
    results s' = results s ∧
    (files s !! results_path s = None → s' = s) ∧
    ∀ p, p ≠ results_path s →
         p ≠ backup_path_of (results_path s) (clock s (ticks s)) →
         files s' !! p = files s !! p.
Proof.
  unfold _backup_results, os_path_exists, os_rename. unfold_monad. simpl.
  destruct (files s !! results_path s) as [n|] eqn:Hfile.
  - rewrite bool_decide_true by eauto. simpl. rewrite Hfile.
    destruct (dir_writable s); simpl.
    + eexists. split; [reflexivity|]. split; [done|]. split; [done|].
      intros p Hp Hb. simpl.
      rewrite lookup_insert_ne by done. by rewrite lookup_delete_ne.
    + eexists. split; [reflexivity|]. done.
  - rewrite bool_decide_false by (by intros [? ?]).
    exists s. done.
Qed.

Lemma save_results_written s :
  (files s !! results_path s = None ∧ dir_writable s = true)
  ∨ (∃ c r, files s !! results_path s = Some (RegularFile c r true)) →
  ∃ r,
    save_results s =
      (Returned tt,
       emit (Saved (results s) true)
         (set_files (<[results_path s := RegularFile (Json (results s)) r true]>
                       (files s)) s)) ∧
    (files s !! results_path s = None → r = true) ∧
    (∀ c r0, files s !! results_path s = Some (RegularFile c r0 true) → r = r0).
Proof.
  unfold save_results, json_dump. unfold_monad. simpl.
  intros [[Hnone Hw]|(c & r & Hfile)].
  - rewrite Hnone, Hw. simpl. exists true. split; [done|]. split; [done|].
    intros ? ? [=].
  - rewrite Hfile. simpl. exists r. split; [done|]. split; [done|].
    by intros ? ? [= _ <-].
Qed.

(** X5. Every verdict is on disk at once.  When the results file can be
    written (it does not exist yet in a writable directory, or it is a
    readable and writable file), [record_result] leaves at the results path
    the document it has in memory, and loading the results again gives that
    document back. *)
Theorem record_result_persists title parsed correct note s :
  (files s !! results_path s = None ∧ dir_writable s = true)
  ∨ (∃ c, files s !! results_path s = Some (RegularFile c true true)) →
  ∃ s',
    record_result title parsed correct note s = (Returned tt, s') ∧
    files s' !! results_path s' = Some (RegularFile (Json (results s')) true true) ∧
    _load_results s' = (Returned (results s'), s').
Proof.
  intros Hfs.
  unfold record_result, incr_tested, incr_correct.
  assert (Hsave : ∀ m, files m = files s → results_path m = results_path s →
                       dir_writable m = dir_writable s →
    ∃ s', save_results m = (Returned tt, s') ∧ results s' = results m ∧
          results_path s' = results_path s ∧
          files s' !! results_path s
            = Some (RegularFile (Json (results m)) true true)).
  { intros m Hf Hp Hw.
    destruct (save_results_written m) as (r & Hrun & Hnew & Hold).
    { rewrite Hf, Hp, Hw. destruct Hfs as [?|[c ?]]; [by left|right; eauto]. }
    eexists. split; [exact Hrun|]. split; [done|]. split; [done|].
    simpl. rewrite Hp, lookup_insert_eq.
    destruct Hfs as [[Hnone _]|[c Hfile]].
    - rewrite Hnew; [done|]. by rewrite Hf, Hp.
    - rewrite (Hold c true); [done|]. by rewrite Hf, Hp. }
  unfold_monad.
  destruct (versions (results s) !! library_version s) as [st|] eqn:Ev;
    destruct (titles (results s) !! title) as [bv|] eqn:Et;
    destruct correct; simpl;
    rewrite ?Ev, ?Et; simpl;
    rewrite ?lookup_insert_eq; simpl;
    rewrite ?Ev, ?Et; simpl;
    rewrite ?lookup_insert_eq; simpl;
    match goal with
    | |- context [save_results ?m] =>
        destruct (Hsave m eq_refl eq_refl eq_refl) as (s' & -> & Hres & Hp & Hfile)
    end;
    (exists s'; split; [reflexivity|]);
    rewrite Hp; (split; [by rewrite Hfile, Hres|]);
    unfold _load_results, os_path_exists, json_load; unfold_monad; simpl;
    rewrite Hp, bool_decide_true by (rewrite Hfile; eauto);
    by rewrite Hfile, Hres.
Qed.

Lemma record_result_persists_witness :
  ∃ s',
    record_result "a" (example_parser "a") true EmptyString (example_state ["a"] [])
      = (Returned tt, s') ∧
    _load_results s' = (Returned (results s'), s').
Proof.
  destruct (record_result_persists "a" (example_parser "a") true EmptyString
              (example_state ["a"] [])) as (s' & Hrun & _ & Hload).
  - left. split; reflexivity.
  - exists s'. split; [exact Hrun|exact Hload].
Defined.

(** ** What [record_result] stores *)

(** X6. The verdict stored for the pair is the one passed in: the same
    correctness flag, parsed result and note, stamped with the clock reading
    of the call (the second reading when the version's statistics were
    created by this call, which take the first). *)
Theorem record_result_stores title parsed correct note s :
  ∃ s' verdict,
    record_result title parsed correct note s = (Returned tt, s') ∧
    verdict_of (results s') (library_version s) title = Some verdict ∧
    is_correct verdict = correct ∧
    parsed_result verdict = parsed ∧
    notes verdict = note ∧
    match versions (results s) !! library_version s with
    | Some _ => timestamp verdict = clock s (ticks s)
    | None =>
        timestamp verdict = clock s (S (ticks s)) ∧
        ∃ st, versions (results s') !! library_version s = Some st ∧
              version_timestamp st = clock s (ticks s)
    end.
Proof.
  destruct (record_result_run title parsed correct note s)
    as (s' & Hrun & Hv & Ht & _).
  eexists s', _. split; [exact Hrun|]. split.
  { unfold verdict_of. rewrite Ht, lookup_insert_eq. simpl.
    apply lookup_insert_eq. }
  simpl. split; [done|]. split; [done|]. split; [done|].
  destruct (versions (results s) !! library_version s) as [st|] eqn:Ev.
  - by rewrite bool_decide_false.
  - rewrite bool_decide_true by done. split; [done|].
    eexists. rewrite Hv, lookup_insert_eq. split; [reflexivity|]. done.
Qed.

(** X7. The number of titles ever tested, which the report prints, goes up
    by one when the title is new to the document and stays the same when it
    already had an entry under any version. *)
Theorem record_result_title_count title parsed correct note s :
  ∃ s',
    record_result title parsed correct note s = (Returned tt, s') ∧
    size (titles (results s')) =
      match titles (results s) !! title with
      | Some _ => size (titles (results s))
      | None => S (size (titles (results s)))
      end.
Proof.
  destruct (record_result_run title parsed correct note s)
    as (s' & Hrun & _ & Ht & _).
  exists s'. split; [exact Hrun|]. rewrite Ht.
  destruct (titles (results s) !! title) as [bv|] eqn:E.
  - by apply map_size_insert_Some.
  - by apply map_size_insert_None.
Qed.

(** ** Sampler and report agree *)

(** X8. With a dataset loaded, the report counts zero untested titles
    exactly when the sampler has nothing left to return. *)
Theorem untested_zero_iff_none s :
  torrent_titles s ≠ [] →
  ∃ rep,
    print_statistics s = (Returned tt, emit (Statistics (Some rep)) s) ∧
    (get_random_untested_title s = (Returned None, s)
     ↔ untested_count rep = 0%nat) ∧
    (untested_count rep ≠ 0%nat →
     ∃ title s2, get_random_untested_title s = (Returned (Some title), s2)).
Proof.
  intros Hds.
  unfold print_statistics, get_random_untested_title, truediv. unfold_monad.
  destruct (torrent_titles s) as [|a l] eqn:Hd; [done|]. clear Hds.
  set (untested := List.filter (is_untested (results s) (library_version s)) (a :: l)).
  assert (Hchoice : untested ≠ [] →
    ∃ title s2, choice untested s = (Returned title, s2)).
  { intros Hne. destruct (choice_elem untested s Hne) as (x & Hx & _). eauto. }
  assert (Hsampler :
    ((match untested with
      | [] => λ s0, (Returned None, s0)
      | _ :: _ => λ s0, match choice untested s0 with
                        | (Returned t, s') => (Returned (Some t), s')
                        | (Raised e, s') => (Raised e, s')
                        | (OutOfFuel, s') => (OutOfFuel, s')
                        end
      end) s = (Returned None, s) ↔ length untested = 0%nat) ∧
    (length untested ≠ 0%nat →
     ∃ title s2,
       (match untested with
        | [] => λ s0, (Returned None, s0)
        | _ :: _ => λ s0, match choice untested s0 with
                          | (Returned t, s') => (Returned (Some t), s')
                          | (Raised e, s') => (Raised e, s')
                          | (OutOfFuel, s') => (OutOfFuel, s')
                          end
        end) s = (Returned (Some title), s2))).
  { destruct untested as [|u us] eqn:Hu.
    - split; [done|]. simpl. lia.
    - destruct Hchoice as (title & s2 & Hc); [done|]. rewrite Hc. split.
      + split; [done|simpl; lia].
      + intros _. eauto. }
  destruct Hsampler as [Hzero Hsome].
  destruct (versions (results s) !! library_version s) as [st|] eqn:Ev;
    [destruct (0 <? tested_count st) eqn:Hpos;
       [destruct (decide (tested_count st = 0));
          [apply Z.ltb_lt in Hpos; lia|]|]|];
    (eexists; split; [reflexivity|]); simpl;
    (split; [exact Hzero|exact Hsome]).
Qed.

Lemma untested_zero_iff_none_witness :
  ∃ rep title s2,
    print_statistics (example_tested ["a"; "b"] "a")
      = (Returned tt, emit (Statistics (Some rep)) (example_tested ["a"; "b"] "a")) ∧
    untested_count rep = 1%nat ∧
    get_random_untested_title (example_tested ["a"; "b"] "a")
      = (Returned (Some title), s2).
Proof.
  destruct (untested_zero_iff_none (example_tested ["a"; "b"] "a"))
    as (rep & Hrun & _ & Hsome); [by vm_compute|].
  assert (Hone : untested_count rep = 1%nat).
  { apply (f_equal (λ p, last (out p.2))) in Hrun. vm_compute in Hrun.
    by injection Hrun as <-. }
  destruct Hsome as (title & s2 & Hget); [by rewrite Hone|].
  exists rep, title, s2. split; [exact Hrun|]. split; [exact Hone|exact Hget].
Defined.

(** ** Loading the dataset *)

Lemma lstrip_head s :
  lstrip s = EmptyString ∨ ∃ c rest, lstrip s = String c rest ∧ isspace c = false.
Proof.
  induction s as [|c s IH]; simpl; [by left|].
  destruct (isspace c) eqn:E; [exact IH|]. right. eauto.
Qed.

Lemma lstrip_fixed c rest : isspace c = false → lstrip (String c rest) = String c rest.
Proof. intros H. simpl. by rewrite H. Qed.

Lemma rstrip_head c rest :
  isspace c = false → ∃ kept, rstrip (String c rest) = String c kept.
Proof.
  intros H. simpl. destruct (rstrip rest); rewrite ?H; eauto.
Qed.

Lemma rstrip_idemp s : rstrip (rstrip s) = rstrip s.
Proof.
  induction s as [|c s IH]; simpl; [done|].
  destruct (rstrip s) as [|k kept] eqn:E.
  - destruct (isspace c) eqn:Hc; simpl; [done|]. by rewrite Hc.
  - simpl. simpl in IH. destruct (rstrip kept) as [|k' kept'] eqn:E'.
    + destruct (isspace k) eqn:Hk; [done|]. by injection IH as <-.
    + by rewrite IH.
Qed.

Lemma strip_idemp s : strip (strip s) = strip s.
Proof.
  unfold strip. destruct (lstrip_head s) as [->|(c & rest & -> & Hc)]; [done|].
  destruct (rstrip_head c rest Hc) as [kept Hk].
  rewrite Hk, (lstrip_fixed _ _ Hc), <- Hk. apply rstrip_idemp.
Qed.

Lemma nonempty_spec s : nonempty s = true ↔ s ≠ EmptyString.
Proof. destruct s; simpl; split; congruence. Qed.

Section StartupProperties.

Variable parse_title : string → Parsed.
Variable read_text : string → option (list string).


End StartupProperties.

(** ** Computations that only talk *)

Create HintDb quiet.

Ltac quiet_base :=
  intros ?; repeat (split; [reflexivity|]);
  first [ by exists []; rewrite app_nil_r
        | by eexists [_]; split; [reflexivity|repeat constructor] ].

Lemma quiet_ret {A} (a : A) : quiet (mret a).
Proof. quiet_base. Qed.

Lemma quiet_raise {A} e : quiet (@raise A e).
Proof. quiet_base. Qed.

Lemma quiet_get {A} (f : State → A) : quiet (get f).
Proof. quiet_base. Qed.

Lemma quiet_print text : quiet (print text).
Proof. quiet_base. Qed.

Lemma quiet_emit e : is_saved e = false → quiet (modify (emit e)).
Proof.
  intros He s. repeat (split; [reflexivity|]).
  exists [e]. split; [reflexivity|]. by repeat constructor.
Qed.

Lemma quiet_now : quiet now.
Proof. quiet_base. Qed.

Lemma quiet_randbelow n : quiet (randbelow n).
Proof. quiet_base. Qed.

Lemma quiet_bind {A B} (m : M A) (f : A → M B) :
  quiet m → (∀ a, quiet (f a)) → quiet (m ≫= f).
Proof.
  intros Hm Hf s.
  destruct (Hm s) as (H1 & H2 & H3 & H4 & H5 & H6 & evs & H7 & H8).
  unfold mbind, M_bind.
  destruct (m s) as [[a|e|] s1]; simpl in *;
    try (repeat (split; [done|]); by exists evs).
  destruct (Hf a s1) as (G1 & G2 & G3 & G4 & G5 & G6 & evs' & G7 & G8).
  repeat (split; [congruence|]).
  exists (evs ++ evs')%list. split.
  - by rewrite G7, H7, app_assoc.
  - by apply Forall_app.
Qed.

Lemma quiet_input prompt : quiet (input prompt).
Proof.
  intros s. unfold input.
  destruct (stdin s) as [|[l|] rest]; simpl; repeat (split; [reflexivity|]);
    (eexists [_]; split; [reflexivity|by repeat constructor]).
Qed.

Lemma quiet_ask_verdict_from pending : quiet (ask_verdict_from pending).
Proof.
  induction pending as [|[l|] rest IH]; intros s; simpl.
  - repeat (split; [reflexivity|]).
    eexists [_]. split; [reflexivity|by repeat constructor].
  - destruct (valid_response (lower l)); simpl.
    + repeat (split; [reflexivity|]).
      eexists [_]. split; [reflexivity|by repeat constructor].
    + destruct (IH (emit (Print "Invalid input. Please enter Y, n, s or q (or press Enter for Yes).")
                      (set_stdin rest (emit (Prompt verdict_prompt) s))))
        as (H1 & H2 & H3 & H4 & H5 & H6 & evs & H7 & H8).
      repeat (split; [done|]).
      eexists (_ :: _ :: evs). split.
      * rewrite H7. simpl. by rewrite <- !app_assoc.
      * by repeat constructor.
  - repeat (split; [reflexivity|]).
    eexists [_]. split; [reflexivity|by repeat constructor].
Qed.

Lemma quiet_ask_verdict : quiet ask_verdict.
Proof. intros s. apply quiet_ask_verdict_from. Qed.

#[local] Hint Resolve quiet_ret quiet_raise quiet_get quiet_print quiet_now
  quiet_randbelow quiet_input quiet_ask_verdict : quiet.
#[local] Hint Extern 2 (quiet (_ ≫= _)) => apply quiet_bind; [|intros] : quiet.
#[local] Hint Extern 2 (quiet (modify (emit _))) =>
  apply quiet_emit; reflexivity : quiet.
#[local] Hint Extern 3 (quiet (match ?x with _ => _ end)) => destruct x : quiet.
#[local] Hint Extern 3 (quiet (if ?x then _ else _)) => destruct x : quiet.

Ltac quiet := eauto 40 with quiet.

Lemma quiet_choice l : quiet (choice l).
Proof. unfold choice. destruct l; quiet. Qed.

Lemma quiet_shuffle x : quiet (shuffle x).
Proof.
  unfold shuffle. generalize (length x - 1)%nat. intros i. revert x.
  induction i as [|i IH]; intros x; simpl; quiet.
Qed.

Lemma quiet_truediv a b : quiet (truediv a b).
Proof. unfold truediv. quiet. Qed.

#[local] Hint Resolve quiet_choice quiet_shuffle quiet_truediv : quiet.

Lemma quiet_print_statistics : quiet print_statistics.
Proof. unfold print_statistics. quiet. Qed.

Lemma quiet_get_random_untested_title : quiet get_random_untested_title.
Proof. unfold get_random_untested_title. quiet. Qed.

Lemma quiet_get_previously_tested_titles : quiet get_previously_tested_titles.
Proof. unfold get_previously_tested_titles. quiet. Qed.

Lemma quiet_select retest_mode titles_to_test count :
  quiet (select retest_mode titles_to_test count).
Proof.
  pose proof quiet_get_random_untested_title. unfold select.
  destruct (retest_mode && (length titles_to_test <=? count)%nat); [quiet|].
  destruct retest_mode; [quiet|].
  apply quiet_bind; [quiet|]. intros [[|c rest]|]; quiet.
Qed.

Lemma quiet_periodic count : quiet (periodic count).
Proof. pose proof quiet_print_statistics. unfold periodic. quiet. Qed.

Lemma filter_saved_nil evs :
  Forall (λ e, is_saved e = false) evs → List.filter is_saved evs = [].
Proof.
  induction 1 as [|e evs He _ IH]; simpl; [done|]. by rewrite He.
Qed.

(** ** One verdict at a time *)

Lemma records_of_quiet title parsed {A} (m : M A) :
  quiet m → records_at_most_once title parsed m.
Proof.
  intros Hq s. destruct (Hq s) as (H1 & _ & _ & _ & H5 & _ & evs & H7 & H8).
  exists evs. split; [done|]. left. split; [done|]. split; [done|].
  by apply filter_saved_nil.
Qed.

Lemma records_bind_l title parsed {A B} (m : M A) (f : A → M B) :
  quiet m → (∀ a, records_at_most_once title parsed (f a)) →
  records_at_most_once title parsed (m ≫= f).
Proof.
  intros Hq Hf s. pose proof (records_of_quiet title parsed m Hq s) as Hm.
  destruct (Hq s) as (H1 & H2 & _ & _ & H5 & _ & evs & H7 & H8).
  unfold mbind, M_bind. destruct (m s) as [[a|e|] s1]; simpl in *; try done.
  destruct (Hf a s1) as (evs' & Hout & Hcase).
  exists (evs ++ evs')%list. split; [by rewrite Hout, H7, app_assoc|].
  rewrite List.filter_app, (filter_saved_nil evs H8). simpl.
  rewrite H1, H2, H5 in Hcase. exact Hcase.
Qed.

Lemma records_bind_r title parsed {A B} (m : M A) (f : A → M B) :
  records_at_most_once title parsed m → (∀ a, quiet (f a)) →
  records_at_most_once title parsed (m ≫= f).
Proof.
  intros Hm Hf s. specialize (Hm s).
  unfold mbind, M_bind. destruct (m s) as [[a|e|] s1]; simpl in *; try done.
  destruct (Hf a s1) as (H1 & H2 & _ & _ & H5 & _ & evs' & H7 & H8).
  destruct Hm as (evs & Hout & Hcase).
  exists (evs ++ evs')%list. split; [by rewrite H7, Hout, app_assoc|].
  rewrite List.filter_app, (filter_saved_nil evs' H8), app_nil_r.
  by rewrite H1, H5.
Qed.

Lemma records_record_result title parsed correct note :
  (correct = true → note = EmptyString) →
  records_at_most_once title parsed (record_result title parsed correct note).
Proof.
  intros Hnote s.
  destruct (record_result_run title parsed correct note s)
    as (s' & Hrun & Hv & Ht & _ & _ & _ & _ & written & Hout).
  rewrite Hrun. simpl. exists [Saved (results s') written].
  split; [done|]. right. eexists _, written. split.
  { unfold verdict_of. rewrite Ht, lookup_insert_eq. simpl.
    apply lookup_insert_eq. }
  simpl. split; [done|]. split; [done|]. split; [|done].
  unfold count_of at 1. by rewrite Hv, lookup_insert_eq.
Qed.

Lemma records_verdict_tail title parsed (correct : bool) :
  records_at_most_once title parsed
    (note ← (if correct then mret EmptyString
             else input "Notes about this result: ");
     record_result title parsed correct note).
Proof.
  destruct correct.
  - intros s.
    exact (records_record_result title parsed true EmptyString (λ _, eq_refl) s).
  - apply records_bind_l; [apply quiet_input|]. intros note.
    by apply records_record_result.
Qed.

Section FurtherSession.

Variable parse_title : string → Parsed.
Variable read_text : string → option (list string).

(** X10. A pass of the session loop, however it ends, either leaves the
    document and the files as they were and saves nothing, or records
    exactly one verdict: for the title it displayed, with the parse it
    displayed, with an empty note when the verdict is "correct", counted
    once and saved once. *)
Theorem judge_records_at_most_once title count s :
  recorded_at_most_once title (parse_title title) s
    (judge parse_title title count s).2.
Proof.
  revert s.
  change (records_at_most_once title (parse_title title)
            (judge parse_title title count)).
  unfold judge, parse_torrent_title.
  apply records_bind_l; [by apply quiet_emit|]. intros _.
  apply records_bind_l; [apply quiet_ask_verdict|]. intros response.
  destruct (response =? "q")%string; [apply records_of_quiet; quiet|].
  destruct (response =? "s")%string; [apply records_of_quiet; quiet|].
  pose proof (records_verdict_tail title (parse_title title)
                ((response =? "y")%string || (response =? "")%string)) as Htail.
  pose proof (records_bind_r title (parse_title title) _
                (λ _, periodic (count + 1)) Htail
                (λ _, quiet_periodic (count + 1))) as H.
  intros s. specialize (H s). revert H.
  unfold mbind, M_bind.
  destruct ((if (response =? "y")%string || (response =? "")%string
             then mret EmptyString else input "Notes about this result: ") s)
    as [[note|e|] s1]; try done.
Qed.

(** X11. [parse_single_title] without [--save] only displays the parse: it
    reads no input, leaves document and files alone and saves nothing.  With
    [--save] it behaves like one pass of the loop: nothing recorded, or
    exactly one verdict for the title with the displayed parse, saved at
    once. *)
Theorem parse_single_title_records_at_most_once title save_result s :
  recorded_at_most_once title (parse_title title) s
    (parse_single_title parse_title title save_result s).2 ∧
  (save_result = false →
   parse_single_title parse_title title save_result s
     = (Returned tt, emit (Display title (parse_title title)) s)).
Proof.
  split.
  - revert s.
    change (records_at_most_once title (parse_title title)
              (parse_single_title parse_title title save_result)).
    unfold parse_single_title, parse_torrent_title.
    apply records_bind_l; [by apply quiet_emit|]. intros _.
    destruct save_result; [|apply records_of_quiet; quiet].
    apply records_bind_l; [apply quiet_ask_verdict|]. intros response.
    destruct (response =? "q")%string; [apply records_of_quiet; quiet|].
    destruct (response =? "s")%string; [apply records_of_quiet; quiet|].
    apply records_verdict_tail.
  - by intros ->.
Qed.

Lemma sampler_run s :
  (List.filter (is_untested (results s) (library_version s)) (torrent_titles s) = []
   ∧ get_random_untested_title s = (Returned None, s))
  ∨ (∃ title,
       In title (List.filter (is_untested (results s) (library_version s))
                   (torrent_titles s)) ∧
       get_random_untested_title s
         = (Returned (Some title), set_draws (S (draws s)) s)).
Proof.
  unfold get_random_untested_title. unfold_monad.
  destruct (List.filter (is_untested (results s) (library_version s))
              (torrent_titles s)) as [|a l] eqn:E; [by left|].
  right. destruct (choice_elem (a :: l) s) as (x & Hx & Hin); [done|].
  exists x. split; [by apply list_elem_of_In|]. by rewrite Hx.
Qed.

Lemma select_fresh s titles_to_test count :
  ∃ r s',
    select false titles_to_test count s = (Returned r, s') ∧
    results s' = results s ∧
    library_version s' = library_version s ∧
    (∀ title, r = Some title →
       verdict_of (results s) (library_version s) title = None).
Proof.
  unfold select. simpl.
  destruct (sampler_run s) as [[Hnil Hrun]|(x & Hin & Hrun)];
    erewrite bind_returned by exact Hrun.
  - by eexists None, _.
  - apply filter_In in Hin as [_ Hun]. apply is_untested_spec in Hun.
    destruct x as [|c rest].
    + by eexists None, _.
    + eexists (Some (String c rest)), _. split; [reflexivity|].
      split; [done|]. split; [done|]. by intros title [= <-].
Qed.

(** X12. In fresh mode the head of a pass never picks a title that already
    has a verdict under the tester's version: what it selects is a dataset
    title without one.  And when no dataset title is empty, it ends the
    session ("all titles tested") exactly when every dataset title has a
    verdict. *)
Theorem select_fresh_untested titles_to_test count s :
  ∃ r s',
    select false titles_to_test count s = (Returned r, s') ∧
    results s' = results s ∧
    (∀ title, r = Some title →
       title ∈ torrent_titles s ∧
       verdict_of (results s) (library_version s) title = None) ∧
    (EmptyString ∉ torrent_titles s →
       (r = None ↔
        ∀ title, title ∈ torrent_titles s →
          is_Some (verdict_of (results s) (library_version s) title))).
Proof.
  unfold select. simpl.
  destruct (sampler_run s) as [[Hnil Hrun]|(x & Hin & Hrun)].
  - erewrite bind_returned by exact Hrun.
    eexists None, _. split; [reflexivity|]. split; [done|]. split; [done|].
    intros _. split; [|done]. intros _ title Hds.
    destruct (verdict_of (results s) (library_version s) title) eqn:Hv; [eauto|].
    apply is_untested_spec in Hv.
    assert (In title (List.filter (is_untested (results s) (library_version s))
                        (torrent_titles s))) as Hf.
    { apply filter_In. split; [by apply list_elem_of_In|done]. }
    rewrite Hnil in Hf. destruct Hf.
  - erewrite bind_returned by exact Hrun.
    apply filter_In in Hin as [Hds Hun]. apply list_elem_of_In in Hds.
    apply is_untested_spec in Hun.
    destruct x as [|c rest].
    + eexists None, _. split; [reflexivity|]. split; [done|]. split; [done|].
      intros Hne. done.
    + eexists (Some (String c rest)), _. split; [reflexivity|].
      split; [done|]. split; [by intros title [= <-]|].
      intros _. split; [done|]. intros Hall.
      destruct (Hall _ Hds) as [v Hv]. congruence.
Qed.

Lemma size_filter_insert_new {V} (P : string * V → Prop) `{∀ e, Decision (P e)}
    (m : gmap string V) t x :
  P (t, x) → filter P m !! t = None →
  size (filter P (<[t:=x]> m)) = S (size (filter P m)).
Proof.
  intros HP Hnone. rewrite map_filter_insert_True by done.
  by apply map_size_insert_None.
Qed.

Lemma size_filter_insert_same {V} (P : string * V → Prop) `{∀ e, Decision (P e)}
    (m : gmap string V) t x :
  (P (t, x) ↔ is_Some (filter P m !! t)) →
  size (filter P (<[t:=x]> m)) = size (filter P m).
Proof.
  intros Hiff. destruct (decide (P (t, x))) as [HP|HP].
  - rewrite map_filter_insert_True by done.
    apply map_size_insert_Some. by apply Hiff.
  - rewrite map_filter_insert_False, map_filter_delete by done.
    rewrite delete_id; [done|]. apply eq_None_not_Some. by rewrite <- Hiff.
Qed.

Lemma record_result_exact title parsed correct note s :
  exact_counts (results s) →
  verdict_of (results s) (library_version s) title = None →
  exact_counts (results (record_result title parsed correct note s).2).
Proof.
  intros Hexact Hun.
  destruct (record_result_run title parsed correct note s)
    as (s' & Hrun & Hv & Ht & _).
  rewrite Hrun. simpl. intros version.
  destruct (Hexact version) as [Htested Hcorrect].
  unfold judged, judged_correct, count_of in *. rewrite Hv, Ht.
  unfold verdict_of in Hun.
  destruct (decide (library_version s = version)) as [<-|Hne].
  - rewrite lookup_insert_eq. simpl.
    assert (Hold : ∀ P : string * gmap string TitleVerdict → Prop,
              ∀ `{∀ e, Decision (P e)},
              (∀ e, P e → is_Some (e.2 !! library_version s)) →
              filter P (titles (results s)) !! title = None).
    { intros P ? HP. apply map_lookup_filter_None.
      destruct (titles (results s) !! title) as [bv|] eqn:E; [right|by left].
      intros x [= <-] Hx. apply HP in Hx. simpl in Hx, Hun.
      rewrite Hun in Hx. by destruct Hx. }
    split.
    + rewrite size_filter_insert_new; [lia| |by apply Hold].
      simpl. rewrite lookup_insert_eq. eauto.
    + destruct correct.
      * rewrite size_filter_insert_new; [lia| |].
        -- simpl. by rewrite lookup_insert_eq.
        -- apply Hold. intros e He. destruct (e.2 !! library_version s); [eauto|done].
      * rewrite size_filter_insert_same; [lia|].
        simpl. rewrite lookup_insert_eq. simpl. split; [done|].
        rewrite Hold; [by intros [? ?]|].
        intros e He. destruct (e.2 !! library_version s); [eauto|done].
  - rewrite lookup_insert_ne by done.
    assert (Hsame : ∀ P : string * gmap string TitleVerdict → Prop,
              ∀ `{∀ e, Decision (P e)},
              (∀ t bv x, P (t, <[library_version s := x]> bv) ↔ P (t, bv)) →
              (∀ t, ¬ P (t, ∅)) →
              ∀ x, size (filter P (<[title := <[library_version s := x]>
                             (default ∅ (titles (results s) !! title))]>
                             (titles (results s))))
                   = size (filter P (titles (results s)))).
    { intros P ? Hins Hempty x. apply size_filter_insert_same.
      rewrite Hins. destruct (titles (results s) !! title) as [bv|] eqn:E; simpl.
      - split.
        + intros HP. exists bv. by apply map_lookup_filter_Some.
        + intros [y Hy]. apply map_lookup_filter_Some in Hy as [Hy HP].
          congruence.
      - split; [by intros ?%Hempty|].
        intros [y Hy]. apply map_lookup_filter_Some in Hy as [Hy _]. congruence. }
    split.
    + rewrite Hsame; [done| |].
      * intros t bv x. simpl. by rewrite lookup_insert_ne.
      * intros t. simpl. rewrite lookup_empty. by intros [? ?].
    + rewrite Hsame; [done| |].
      * intros t bv x. simpl. by rewrite lookup_insert_ne.
      * intros t. simpl. by rewrite lookup_empty.
Qed.

Lemma triple_bind (P R Q : State → Prop) {A B} (m : M A) (f : A → M B) :
  triple P R m → (∀ s, R s → Q s) → (∀ a, triple R Q (f a)) →
  triple P Q (m ≫= f).
Proof.
  intros Hm HRQ Hf s HP. specialize (Hm s HP). unfold mbind, M_bind.
  destruct (m s) as [[a|e|] s1]; simpl in *; [by apply Hf|by apply HRQ..].
Qed.

Lemma triple_quiet (P : Results → string → list string → Prop) {A} (m : M A) :
  quiet m →
  triple (λ s, P (results s) (library_version s) (torrent_titles s))
         (λ s, P (results s) (library_version s) (torrent_titles s)) m.
Proof.
  intros Hq s HP. destruct (Hq s) as (-> & -> & -> & _). exact HP.
Qed.

Lemma exact_quiet {A} (m : M A) : quiet m → triple exact exact m.
Proof. apply (triple_quiet (λ d _ _, exact_counts d)). Qed.

Lemma exact_untested_quiet title {A} (m : M A) :
  quiet m → triple (exact_untested title) (exact_untested title) m.
Proof.
  apply (triple_quiet (λ d v _, exact_counts d ∧ verdict_of d v title = None)).
Qed.

Lemma exact_untested_exact title s : exact_untested title s → exact s.
Proof. by intros [? _]. Qed.

Lemma judge_exact title count :
  triple (exact_untested title) exact (judge parse_title title count).
Proof.
  unfold judge, parse_torrent_title.
  apply (triple_bind _ (exact_untested title));
    [apply exact_untested_quiet; by apply quiet_emit
    |apply exact_untested_exact|]. intros _.
  apply (triple_bind _ (exact_untested title));
    [apply exact_untested_quiet, quiet_ask_verdict
    |apply exact_untested_exact|]. intros response.
  destruct (response =? "q")%string.
  { intros s [H _]. revert s H. apply exact_quiet. quiet. }
  destruct (response =? "s")%string.
  { intros s [H _]. revert s H. apply exact_quiet. quiet. }
  apply (triple_bind _ (exact_untested title));
    [apply exact_untested_quiet; destruct (_ || _); quiet
    |apply exact_untested_exact|]. intros note.
  apply (triple_bind _ exact); [|done|].
  - intros s [Hexact Hun]. by apply record_result_exact.
  - intros _. apply exact_quiet, quiet_periodic.
Qed.

Lemma round_fresh_exact titles_to_test count :
  triple exact exact (round parse_title false titles_to_test count).
Proof.
  intros s Hexact. unfold round.
  destruct (select_fresh s titles_to_test count) as (r & s1 & Hsel & Hres & Hv & Hsome).
  erewrite bind_returned by exact Hsel.
  destruct r as [title|]; simpl; [|by unfold exact; rewrite Hres].
  apply judge_exact. split; [by rewrite Hres|]. rewrite Hres, Hv. by apply Hsome.
Qed.

Lemma triple_try_except (P : State → Prop) {A} (m h : M A) catches :
  triple P P m → triple P P h → triple P P (try_except m catches h).
Proof.
  intros Hm Hh s HP. specialize (Hm s HP). unfold try_except.
  destruct (m s) as [[a|e|] s1]; simpl in *; try done.
  destruct (catches e); [by apply Hh|done].
Qed.

Lemma triple_try_finally (P : State → Prop) {A} (m : M A) (f : M unit) :
  triple P P m → triple P P f → triple P P (try_finally m f).
Proof.
  intros Hm Hf s HP. specialize (Hm s HP). unfold try_finally.
  destruct (m s) as [r s1]; simpl in *. specialize (Hf s1 Hm).
  destruct r as [a|e|]; [| |done];
    by destruct (f s1) as [[[]|e'|] s2].
Qed.

Lemma exact_save_results : triple exact exact save_results.
Proof.
  intros s H. by destruct (save_results_run s) as (f & w & ->).
Qed.

Lemma loop_fresh_exact fuel titles_to_test :
  ∀ count, triple exact exact (loop parse_title fuel false titles_to_test count).
Proof.
  induction fuel as [|fuel IH]; intros count; simpl; [by intros s H|].
  apply (triple_bind _ exact); [apply round_fresh_exact|done|].
  intros [|count']; [by apply exact_quiet, quiet_ret|apply IH].
Qed.

Lemma exact_counts_new : exact_counts _create_new_results.
Proof.
  intros version. unfold judged, judged_correct, count_of. simpl.
  by rewrite lookup_empty, !map_filter_empty, map_size_empty.
Qed.

(** X13. Fresh mode keeps the statistics honest.  In a document where, for
    every version, [tested_count] is the number of titles that have a
    verdict under it and [correct_count] the number of those judged correct
    (the new document is one), a whole fresh-mode session, under any
    version, ends in such a document: it never tests a pair twice. *)
Theorem fresh_session_keeps_counts_exact s :
  exact_counts (results s) →
  exact_counts (results (interactive_testing parse_title false s).2).
Proof.
  revert s. change (triple exact exact (interactive_testing parse_title false)).
  intros s. unfold interactive_testing, interactive_testing_fuel.
  apply triple_try_finally.
  - apply triple_try_except; [apply loop_fresh_exact|apply exact_quiet; quiet].
  - unfold final_step. apply (triple_bind _ exact); [apply exact_save_results|done|].
    intros _. apply exact_quiet, quiet_print_statistics.
Qed.

End FurtherSession.

Lemma fresh_session_keeps_counts_exact_witness :
  let s' := (interactive_testing example_parser false
               (example_state ["a"; "b"]
                  [Line "y"; Line "n"; Line "wrong year"])).2 in
  exact_counts (results s') ∧
  count_of tested_count (results s') "dev" = 2 ∧
  count_of correct_count (results s') "dev" = 1.
Proof.
  split; [|by vm_compute].
  apply (fresh_session_keeps_counts_exact example_parser). apply exact_counts_new.
Defined.

(** ** The retest queue *)

Lemma swap_permutation x i j : swap x i j ≡ₚ x.
Proof.
  unfold swap. destruct (x !! i) as [a|] eqn:Ei; [|done].
  destruct (x !! j) as [b|] eqn:Ej; [|done].
  by apply Permutation_insert_swap.
Qed.

Lemma shuffle_from_run i :
  ∀ x s, ∃ y s',
    shuffle_from i x s = (Returned y, s') ∧ y ≡ₚ x ∧
    results s' = results s ∧ stdin s' = stdin s ∧ out s' = out s ∧
    draws s' = (draws s + i)%nat.
Proof.
  induction i as [|i IH]; intros x s; simpl.
  - exists x, s. rewrite Nat.add_0_r. done.
  - unfold mbind, M_bind, randbelow.
    destruct (IH (swap x (S i) (rng s (draws s) mod S (S i))%nat)
                (set_draws (S (draws s)) s))
      as (y & s' & Hrun & Hperm & Hres & Hin & Hout & Hdraws).
    exists y, s'. split; [exact Hrun|].
    split; [by rewrite Hperm, swap_permutation|].
    split; [done|]. split; [done|]. split; [done|]. rewrite Hdraws. simpl. lia.
Qed.

Section Retest.

Variable parse_title : string → Parsed.

(** X14. In retest mode the queue is the previously tested titles in a
    shuffled order: each title of the document is in it exactly once.  The
    shuffle takes one random draw less than there are titles and touches
    nothing else.  With no title in the document the session body only
    prints that there is nothing to retest. *)
Theorem retest_queue_is_permutation fuel s :
  (titles (results s) = ∅ →
   session_body parse_title fuel true s
     = (Returned tt, emit (Print "No previously tested titles found.") s)) ∧
  (titles (results s) ≠ ∅ →
   ∃ queue s1,
     session_body parse_title fuel true s
       = loop parse_title fuel true queue 0 s1 ∧
     NoDup queue ∧
     (∀ title, title ∈ queue ↔ is_Some (titles (results s) !! title)) ∧
     length queue = size (titles (results s)) ∧
     results s1 = results s ∧ stdin s1 = stdin s ∧ out s1 = out s ∧
     draws s1 = (draws s + (size (titles (results s)) - 1))%nat).
Proof.
  unfold session_body, get_previously_tested_titles. unfold_monad. simpl.
  split.
  - intros ->. by rewrite map_to_list_empty.
  - intros Hne.
    destruct ((map_to_list (titles (results s))).*1) as [|t tested] eqn:E.
    { apply fmap_nil_inv, map_to_list_empty_iff in E. done. }
    rewrite <- E. unfold shuffle.
    destruct (shuffle_from_run (length (map_to_list (titles (results s))).*1 - 1)
                (map_to_list (titles (results s))).*1 s)
      as (queue & s1 & Hrun & Hperm & Hres & Hin & Hout & Hdraws).
    rewrite Hrun. exists queue, s1. split; [done|].
    split. { rewrite Hperm. apply NoDup_fst_map_to_list. }
    split.
    { intros title. rewrite Hperm, list_elem_of_fmap. split.
      - intros [[k v] [-> H]]. apply elem_of_map_to_list in H. simpl. eauto.
      - intros [v H]. exists (title, v). split; [done|].
        by apply elem_of_map_to_list. }
    split. { by rewrite Hperm, length_fmap, length_map_to_list. }
    split; [done|]. split; [done|]. split; [done|].
    by rewrite Hdraws, length_fmap, length_map_to_list.
Qed.

End Retest.

Lemma retest_queue_is_permutation_witness :
  ∃ queue s1,
    session_body example_parser 1 true (example_tested ["a"] "a")
      = loop example_parser 1 true queue 0 s1 ∧
    "a" ∈ queue ∧ length queue = 1%nat.
Proof.
  destruct (retest_queue_is_permutation example_parser 1 (example_tested ["a"] "a"))
    as [_ H].
  destruct H as (queue & s1 & Hrun & _ & Hin & Hlen & _).
  { intros Hempty. apply (f_equal size) in Hempty. vm_compute in Hempty.
    discriminate Hempty. }
  exists queue, s1. split; [exact Hrun|]. split.
  - apply Hin. by eexists.
  - rewrite Hlen. by vm_compute.
Defined.

(** ** What can escape from a session *)

Create HintDb mild.

Lemma mild_returns {A} (m : M A) :
  (∀ s, ∃ a s', m s = (Returned a, s')) → mild m.
Proof. intros H s e. destruct (H s) as (a & s' & ->). done. Qed.

Lemma mild_ret {A} (a : A) : mild (mret a).
Proof. apply mild_returns. intros s. by eexists _, _. Qed.

Lemma mild_get {A} (f : State → A) : mild (get f).
Proof. apply mild_returns. intros s. by eexists _, _. Qed.

Lemma mild_modify f : mild (modify f).
Proof. apply mild_returns. intros s. by eexists _, _. Qed.

Lemma mild_print text : mild (print text).
Proof. apply mild_modify. Qed.

Lemma mild_bind {A B} (m : M A) (f : A → M B) :
  mild m → (∀ a, mild (f a)) → mild (m ≫= f).
Proof.
  intros Hm Hf s e. specialize (Hm s). unfold mbind, M_bind.
  destruct (m s) as [[a|e'|] s1]; simpl in *; [apply Hf| |done].
  intros [= <-]. by apply Hm.
Qed.

Lemma mild_try_except {A} (m h : M A) catches :
  mild m → mild h → mild (try_except m catches h).
Proof.
  intros Hm Hh s e. specialize (Hm s). unfold try_except.
  destruct (m s) as [[a|e'|] s1]; simpl in *; [done| |done].
  destruct (catches e'); [apply Hh|apply Hm].
Qed.

Lemma mild_input prompt : mild (input prompt).
Proof.
  intros s e. unfold input.
  destruct (stdin s) as [|[l|] rest] eqn:E; simpl; intros [= <-]; auto.
Qed.

Lemma mild_ask_verdict : mild ask_verdict.
Proof.
  intros s. unfold ask_verdict.
  assert (H : ∀ pending s0, stdin s0 = pending → ∀ e,
            (ask_verdict_from pending s0).1 = Raised e →
            (e = EOFError ∧ stdin (ask_verdict_from pending s0).2 = [])
            ∨ e = KeyboardInterrupt).
  { induction pending as [|[l|] rest IH]; intros s0 Hs0 e; simpl.
    - intros [= <-]. auto.
    - destruct (valid_response (lower l)); [done|]. by apply IH.
    - intros [= <-]. auto. }
  by apply H.
Qed.

Lemma mild_save_results : mild save_results.
Proof.
  apply mild_returns. intros s.
  destruct (save_results_run s) as (f & w & ->). by eexists _, _.
Qed.

Lemma mild_record_result title parsed correct note :
  mild (record_result title parsed correct note).
Proof.
  apply mild_returns. intros s.
  destruct (record_result_run title parsed correct note s) as (s' & -> & _).
  by eexists _, _.
Qed.

Lemma mild_print_statistics : mild print_statistics.
Proof.
  apply mild_returns. intros s.
  destruct (print_statistics_run s) as (report & -> & _). by eexists _, _.
Qed.

Lemma mild_shuffle x : mild (shuffle x).
Proof.
  apply mild_returns. intros s. unfold shuffle.
  destruct (shuffle_from_run (length x - 1) x s) as (y & s' & -> & _).
  by eexists _, _.
Qed.

#[local] Hint Resolve mild_ret mild_get mild_modify mild_print mild_input
  mild_ask_verdict mild_save_results mild_record_result mild_print_statistics
  mild_shuffle : mild.
#[local] Hint Extern 2 (mild (_ ≫= _)) => apply mild_bind; [|intros] : mild.
#[local] Hint Extern 3 (mild (if ?x then _ else _)) => destruct x : mild.

Ltac mild := eauto 40 with mild.

Lemma mild_select retest_mode titles_to_test count :
  mild (select retest_mode titles_to_test count).
Proof.
  apply mild_returns. intros s. unfold select.
  destruct retest_mode; simpl.
  - destruct (length titles_to_test <=? count)%nat eqn:E.
    + by eexists _, _.
    + apply Nat.leb_gt in E.
      destruct (lookup_lt_is_Some_2 _ _ E) as [title ->]. by eexists _, _.
  - destruct (select_fresh s titles_to_test count) as (r & s' & H & _).
    unfold select in H. simpl in H. rewrite H. by eexists _, _.
Qed.

Lemma mild_periodic count : mild (periodic count).
Proof. unfold periodic. mild. Qed.

Section Escapes.

Variable parse_title : string → Parsed.

Lemma mild_judge title count : mild (judge parse_title title count).
Proof. pose proof mild_periodic. unfold judge. mild. Qed.

Lemma mild_round retest_mode titles_to_test count :
  mild (round parse_title retest_mode titles_to_test count).
Proof.
  unfold round. apply mild_bind; [apply mild_select|].
  intros [title|]; [apply mild_judge|mild].
Qed.

Lemma mild_loop fuel retest_mode titles_to_test :
  ∀ count, mild (loop parse_title fuel retest_mode titles_to_test count).
Proof.
  induction fuel as [|fuel IH]; intros count; simpl; [by intros s e|].
  apply mild_bind; [apply mild_round|]. intros [|count']; [mild|apply IH].
Qed.

Lemma mild_session_body fuel retest_mode :
  mild (session_body parse_title fuel retest_mode).
Proof.
  pose proof mild_loop. unfold session_body, get_previously_tested_titles.
  destruct retest_mode; [|done].
  apply mild_bind; [mild|]. intros [|t tested]; mild.
Qed.

Lemma interactive_testing_outcome retest_mode s :
  (interactive_testing parse_title retest_mode s).1 = Returned tt
  ∨ ((interactive_testing parse_title retest_mode s).1 = Raised EOFError ∧
     stdin (interactive_testing parse_title retest_mode s).2 = []).
Proof.
  unfold interactive_testing, interactive_testing_fuel, try_finally.
  destruct (guarded_body_ends parse_title retest_mode s) as (Hfuel & Hki & _).
  pose proof (mild_try_except
                (session_body parse_title (S (length (stdin s))) retest_mode)
                (print "Test session interrupted.") is_KeyboardInterrupt
                (mild_session_body _ _) (mild_print _) s) as Hmild.
  destruct (try_except
              (session_body parse_title (S (length (stdin s))) retest_mode)
              is_KeyboardInterrupt (print "Test session interrupted.") s)
    as [r1 s1]; simpl in *.
  destruct (final_step_run s1) as (f & written & report & Hfin & _).
  destruct r1 as [[]|e|]; [| |done]; rewrite Hfin; simpl; [by left|].
  right. destruct (Hmild e eq_refl) as [[-> Hin] | ->]; [done|done].
Qed.


End Escapes.

(** ** Starting up *)

Lemma load_results_tidy s :
  ∃ r s' evs,
    _load_results s = (r, s') ∧
    ((∃ d, r = Returned d) ∨ r = Raised OSError ∨ r = Raised UnicodeDecodeError) ∧
    stdin s' = stdin s ∧
    results_path s' = results_path s ∧
    library_version s' = library_version s ∧
    out s' = (out s ++ evs)%list ∧
    Forall (λ e, is_saved e = false) evs.
Proof.
  unfold _load_results, _backup_results, os_path_exists, json_load, os_rename.
  unfold_monad. simpl.
  destruct (files s !! results_path s) as [n|] eqn:Hfile.
  - rewrite !bool_decide_true by (rewrite ?Hfile; eauto).
    rewrite ?Hfile. simpl.
    destruct n as [[d| |] [|] w|]; simpl; rewrite ?Hfile; simpl;
      try (by eexists _, _, []; rewrite app_nil_r; split; [reflexivity|]; eauto 10).
    destruct (dir_writable s); simpl; rewrite ?Hfile; simpl;
      (eexists _, _, [_; _]; split; [reflexivity|]);
      (split; [eauto|]); simpl; rewrite <- ?app_assoc;
      repeat (split; [reflexivity|]); by repeat constructor.
  - rewrite bool_decide_false by (by intros [? ?]).
    eexists _, _, []. rewrite app_nil_r. split; [reflexivity|]. eauto 10.
Qed.

Section MainProperties.

Variable parse_title : string → Parsed.
Variable read_text : string → option (list string).

Lemma init_tidy dataset_path path version w :
  ∃ evs,
    stdin (__init__ read_text dataset_path path version w).2 = stdin w ∧
    out (__init__ read_text dataset_path path version w).2 = (out w ++ evs)%list ∧
    Forall (λ e, is_saved e = false) evs ∧
    ((__init__ read_text dataset_path path version w).1 = None →
       results_path (__init__ read_text dataset_path path version w).2 = path ∧
       library_version (__init__ read_text dataset_path path version w).2 = version ∧
       Forall (λ title, title ≠ EmptyString ∧ strip title = title)
         (torrent_titles (__init__ read_text dataset_path path version w).2) ∧
       (nonempty (default EmptyString dataset_path) = false →
        torrent_titles (__init__ read_text dataset_path path version w).2 = [])) ∧
    (∀ e, (__init__ read_text dataset_path path version w).1 = Some e →
       (e = Exited 1 ∧ nonempty (default EmptyString dataset_path) = true ∧
        read_text (default EmptyString dataset_path) = None)
       ∨ e = Crashed OSError ∨ e = Crashed UnicodeDecodeError).
Proof.
  unfold __init__.
  destruct (load_results_tidy (set_configuration path version w))
    as (r & s1 & evs & Hrun & Hr & Hin & Hpath & Hver & Hout & Hevs).
  rewrite Hrun. simpl in Hin, Hpath, Hver, Hout.
  destruct Hr as [[d ->]|[->| ->]].
  - destruct (nonempty (default EmptyString dataset_path)) eqn:Hds.
    + unfold _load_dataset.
      destruct (read_text (default EmptyString dataset_path)) as [lines|] eqn:Hread.
      * exists evs. simpl. split; [done|]. split; [done|]. split; [done|].
        split; [|by intros e [=]].
        intros _. split; [done|]. split; [done|]. split; [|done].
        apply Forall_forall. intros title Ht.
        apply list_elem_of_fmap in Ht as (line & -> & Ht).
        apply list_elem_of_In, filter_In in Ht as [_ Hne].
        split; [by apply nonempty_spec|apply strip_idemp].
      * exists (evs ++ [Print "Error loading dataset"])%list. simpl.
        split; [done|]. split; [by rewrite Hout, app_assoc|]. split.
        { apply Forall_app. split; [done|by repeat constructor]. }
        split; [done|]. intros e [= <-]. auto.
    + exists evs. simpl. split; [done|]. split; [done|]. split; [done|].
      split; [|by intros e [=]].
      intros _. split; [done|]. split; [done|]. split; [by constructor|done].
  - exists evs. simpl. split; [done|]. split; [done|]. split; [done|].
    split; [done|]. intros e [= <-]. auto.
  - exists evs. simpl. split; [done|]. split; [done|]. split; [done|].
    split; [done|]. intros e [= <-]. auto.
Qed.


Lemma run_endings (m : M unit) s :
  (m s).1 ≠ OutOfFuel → mild m →
  (run m s).1 = Finished ∨ (run m s).1 = Crashed EOFError
  ∨ (run m s).1 = Crashed KeyboardInterrupt.
Proof.
  intros Hfuel Hmild. specialize (Hmild s). unfold run.
  destruct (m s) as [[[]|e|] s']; simpl in *; [auto| |done].
  destruct (Hmild e eq_refl) as [[-> _] | ->]; auto.
Qed.

Lemma tame_parse_single_title title save_result :
  tame (parse_single_title parse_title title save_result).
Proof. unfold parse_single_title. tame. Qed.

Lemma mild_parse_single_title title save_result :
  mild (parse_single_title parse_title title save_result).
Proof. unfold parse_single_title. mild. Qed.

(** The dataset mode of [main]: the banner, the wait for Enter, the
    session. *)
Lemma dataset_mode_run (args : Args) s :
  let body :=
    print ("Testing parser version: " ++ arg_version args);;
    print ("Dataset: " ++ render_dataset (arg_dataset args));;
    print ("Results will be saved to: " ++ arg_results args);;
    (if arg_retest args
     then print "Mode: Retesting previously tested titles"
     else print "Mode: Testing new random titles");;
    input "Press Enter to begin testing...";;
    interactive_testing parse_title (arg_retest args) in
  let s1 :=
    emit (Prompt "Press Enter to begin testing...")
      (emit (Print (if arg_retest args
                    then "Mode: Retesting previously tested titles"
                    else "Mode: Testing new random titles"))
         (emit (Print ("Results will be saved to: " ++ arg_results args))
            (emit (Print ("Dataset: " ++ render_dataset (arg_dataset args)))
               (emit (Print ("Testing parser version: " ++ arg_version args)) s)))) in
  match stdin s with
  | [] => body s = (Raised EOFError, s1)
  | Interrupt :: rest => body s = (Raised KeyboardInterrupt, set_stdin rest s1)
  | Line _ :: rest =>
      body s = interactive_testing parse_title (arg_retest args) (set_stdin rest s1)
  end.
Proof.
  intros body s1. subst body s1. unfold mbind, M_bind, print, modify, input.
  destruct (arg_retest args); simpl; by destruct (stdin s) as [|[l|] rest].
Qed.

Lemma dispatch_endings args w :
  let e := (dispatch parse_title read_text args w).1 in
  e = Finished ∨ e = Exited 1 ∨ e = Crashed OSError
  ∨ e = Crashed UnicodeDecodeError ∨ e = Crashed EOFError
  ∨ e = Crashed KeyboardInterrupt.
Proof.
  intros e. subst e. unfold dispatch.
  destruct (init_tidy (arg_dataset args) (arg_results args) (arg_version args) w)
    as (evs & _ & _ & _ & _ & Hsome).
  destruct (__init__ read_text (arg_dataset args) (arg_results args)
              (arg_version args) w) as [[e|] s0]; simpl in *.
  { destruct (Hsome e eq_refl) as [[-> _]|[->| ->]]; auto 10. }
  destruct (nonempty (default EmptyString (arg_title args))).
  { destruct (run_endings
                (parse_single_title parse_title
                   (default EmptyString (arg_title args)) (arg_save args)) s0)
      as [H|[H|H]]; [apply tame_parse_single_title
                    |apply mild_parse_single_title|..]; rewrite H; auto 10. }
  destruct (arg_stats args).
  { unfold run. destruct (print_statistics_run s0) as (report & -> & _). auto. }
  unfold run. pose proof (dataset_mode_run args s0) as Hbody. simpl in Hbody.
  destruct (stdin s0) as [|[l|] rest]; rewrite Hbody; simpl; auto 10.
  match goal with
  | |- context [interactive_testing parse_title ?r ?s1] =>
      destruct (interactive_testing_outcome parse_title r s1) as [H|[H _]];
      destruct (interactive_testing parse_title r s1) as [o s2]
  end; simpl in H; subst o; simpl; auto 10.
Qed.


(** X18. The modes that only look.  A single title without [--save], and
    [--stats] without a title, read no input and never write the results
    file: no save is attempted. *)
Theorem main_read_only_modes args w :
  (nonempty (default EmptyString (arg_title args)) = true ∧ arg_save args = false)
  ∨ (nonempty (default EmptyString (arg_title args)) = false ∧
     arg_stats args = true) →
  stdin (main parse_title read_text args w).2 = stdin w ∧
  ∀ d written,
    Saved d written ∈ out (main parse_title read_text args w).2 →
    Saved d written ∈ out w.
Proof.
  intros Hmode.
  assert (Hd : stdin (dispatch parse_title read_text args w).2 = stdin w ∧
               ∃ evs, out (dispatch parse_title read_text args w).2
                      = (out w ++ evs)%list ∧
                      Forall (λ e, is_saved e = false) evs).
  { unfold dispatch.
    destruct (init_tidy (arg_dataset args) (arg_results args) (arg_version args) w)
      as (evs & Hin & Hout & Hevs & _).
    destruct (__init__ read_text (arg_dataset args) (arg_results args)
                (arg_version args) w) as [[e|] s0]; simpl in *; [by eauto|].
    destruct Hmode as [[-> ->]|[-> ->]]; unfold run; simpl.
    - split; [done|]. eexists (evs ++ [_])%list.
      split; [by rewrite Hout, <- app_assoc|].
      apply Forall_app. split; [done|by repeat constructor].
    - destruct (print_statistics_run s0) as (report & -> & _). simpl.
      split; [done|]. exists (evs ++ [Statistics report])%list.
      split; [by rewrite Hout, <- app_assoc|].
      apply Forall_app. split; [done|by repeat constructor]. }
  assert (Hm : stdin (main parse_title read_text args w).2 = stdin w ∧
               ∃ evs, out (main parse_title read_text args w).2
                      = (out w ++ evs)%list ∧
                      Forall (λ e, is_saved e = false) evs).
  { unfold main. destruct (arg_dataset args), (arg_title args); try exact Hd.
    simpl. split; [done|]. eexists [_]. split; [done|]. by repeat constructor. }
  destruct Hm as (Hin & evs & Hout & Hevs). split; [exact Hin|].
  intros d written. rewrite Hout, elem_of_app. intros [H|H]; [done|].
  rewrite Forall_forall in Hevs. apply Hevs in H. discriminate H.
Qed.


End MainProperties.

(** The dataset of [example_texts] as [__init__] loads it. *)
Example init_example :
  ∃ s0,
    __init__ example_texts (Some "titles.txt") "parser_test_results.json" "dev"
      (example_state [] []) = (None, s0) ∧
    torrent_titles s0 = ["Show.S01E02.1080p"; "Movie.2020.720p"].
Proof. eexists. split; [by vm_compute|]. by vm_compute. Qed.

(** One title, no [--save], with a line waiting on standard input: the line
    is still there afterwards and nothing was saved. *)
Lemma main_read_only_modes_witness :
  stdin (main example_parser example_texts example_title_args
           (example_state [] [Line "y"])).2 = [Line "y"] ∧
  ∀ d written,
    Saved d written ∉ out (main example_parser example_texts example_title_args
                             (example_state [] [Line "y"])).2.
Proof.
  destruct (main_read_only_modes example_parser example_texts example_title_args
              (example_state [] [Line "y"])) as [Hin Hout].
  - left. split; reflexivity.
  - split; [exact Hin|]. intros d written H. apply Hout in H. inversion H.
Defined.

